(** * FocusTask voice session: scheduler, tool bridge and credential logic

    A shallow embedding of the voice-session code of [App] (the React
    component whose source follows the type declarations in
    [src/types.ts]) and of the properties its specification states about
    it.

    Modelling conventions.
    - A JavaScript string is a sequence of code units; the model covers
      code units below 256, one [ascii] each.
    - Audio time ([AudioContext.currentTime], [AudioBuffer.duration],
      [nextStartTimeRef]) is counted in whole ticks of the output clock,
      a natural number [N]; rounding of doubles is not modelled.
    - React state setters are applied at once; the mirror [tasksRef] is
      refreshed only by the effect that runs after a render.
    - An [async] handler runs to its end before the next event is
      dispatched, and the output clock does not advance meanwhile.
    - [triggerSound] only drives the feedback synthesiser of
      [utils/audio], which keeps no state of the component; the sounds
      played are not recorded. *)

From Stdlib Require Import NArith Lia Ascii String.
From Stdlib Require Import DecimalString DecimalN DecimalPos.
From stdpp Require Import base option list strings gmap.

Local Open Scope string_scope.

(** ** JavaScript string primitives used by the handlers *)

Module JsString.

Definition code (c : ascii) : N := N_of_ascii c.

(** [String.prototype.toLowerCase] on one code unit below 256: the
    letters A-Z and the Latin-1 capitals U+00C0-U+00DE (the
    multiplication sign U+00D7 apart) move up by 32. *)
Definition lowerChar (c : ascii) : ascii :=
  let n := code c in
  if ((65 <=? n) && (n <=? 90))%N then ascii_of_N (n + 32)
  else if ((192 <=? n) && (n <=? 222) && negb (n =? 215))%N
       then ascii_of_N (n + 32)
  else c.

Fixpoint toLowerCase (s : string) : string :=
  match s with
  | EmptyString => EmptyString
  | String c s' => String (lowerChar c) (toLowerCase s')
  end.

(** [s.startsWith(p)] *)
Fixpoint startsWith (s p : string) {struct p} : bool :=
  match p, s with
  | EmptyString, _ => true
  | String _ _, EmptyString => false
  | String b p', String a s' => bool_decide (a = b) && startsWith s' p'
  end.

(** [s.includes(search)]: [search] occurs at some position of [s]. *)
Fixpoint includes (s search : string) : bool :=
  startsWith s search ||
  match s with
  | EmptyString => false
  | String _ s' => includes s' search
  end.

(** White space and line terminators of ECMAScript among the code units
    below 256: TAB, LF, VT, FF, CR, SP and NBSP. *)
Definition isWhitespace (c : ascii) : bool :=
  let n := code c in
  ((9 <=? n) && (n <=? 13) || (n =? 32) || (n =? 160))%N.

Fixpoint trimStart (s : string) : string :=
  match s with
  | EmptyString => EmptyString
  | String c s' => if isWhitespace c then trimStart s' else s
  end.

Fixpoint trimEnd (s : string) : string :=
  match s with
  | EmptyString => EmptyString
  | String c s' =>
      match trimEnd s' with
      | EmptyString => if isWhitespace c then EmptyString
                       else String c EmptyString
      | r => String c r
      end
  end.

(** [s.trim()] *)
Definition trim (s : string) : string := trimEnd (trimStart s).

(** JavaScript truthiness of a string: only the empty string is falsy. *)
Definition truthy (s : string) : bool :=
  match s with EmptyString => false | _ => true end.

(** A string that is empty or consists of white space only. *)
Fixpoint blank (s : string) : bool :=
  match s with
  | EmptyString => true
  | String c s' => isWhitespace c && blank s'
  end.

(** [parts.join(sep)] *)
Fixpoint join (sep : string) (parts : list string) : string :=
  match parts with
  | [] => EmptyString
  | [x] => x
  | x :: rest => x ++ sep ++ join sep rest
  end.

End JsString.

(** ** The component state *)

Module App.

Import JsString.

(** [Task] of the type declarations. *)
Record Task := {
  id : string;
  text : string;
  completed : bool;
  createdAt : N
}.

(** One [AudioBufferSourceNode] on which [start] was called: the [when]
    argument of [start], the duration of its buffer and the reading of
    the output clock at the call. *)
Record SourceNode := {
  when : N;
  duration : N;
  calledAt : N
}.

(** A source node is named by its rank among the nodes started. *)
Definition handle := nat.

(** One entry of [msg.toolCall.functionCalls]. [call_text] is
    [(fc.args as any).text]: [None] when the argument is missing. *)
Record FunctionCall := {
  call_id : string;
  call_name : string;
  call_text : option string
}.

(** The payload of [session.sendToolResponse]. *)
Record FunctionResponse := {
  resp_id : string;
  resp_name : string;
  resp_result : string
}.

(** The parts of a [LiveServerMessage] the handler reads. *)
Record LiveServerMessage := {
  audioData : option string;
  interrupted : bool;
  toolCall : option (list FunctionCall)
}.

(** React state and refs of [App] (first twelve fields), followed by the
    effects the handlers have outside the component: the source nodes
    started and force-stopped, the tool responses sent, the lines of
    [console.error], the [localStorage] entry of the key, the keys given
    to [new GoogleGenAI], the number of [prompt] dialogs shown and the
    number of task identifiers drawn. [audioContextRef] holds the
    [currentTime] of the output context, [None] for [null]; the two
    other refs only record whether they are non-null. *)
Record State := {
  tasks : list Task;
  tasksRef : list Task;
  customApiKey : string;
  isVoiceActive : bool;
  isVoiceConnecting : bool;
  voiceError : option string;
  isBotSpeaking : bool;
  audioContextRef : option N;
  inputContextRef : bool;
  liveSessionRef : bool;
  nextStartTimeRef : N;
  audioSourcesRef : gset handle;
  started : list SourceNode;
  stopped : gset handle;
  sent : list FunctionResponse;
  errors : list string;
  storedKey : option string;
  clients : list string;
  prompts : nat;
  idCalls : nat
}.

Definition set_tasks (v : list Task) (s : State) : State :=
  {| tasks := v; tasksRef := tasksRef s; customApiKey := customApiKey s;
     isVoiceActive := isVoiceActive s; isVoiceConnecting := isVoiceConnecting
     s; voiceError := voiceError s; isBotSpeaking := isBotSpeaking s;
     audioContextRef := audioContextRef s; inputContextRef := inputContextRef
     s; liveSessionRef := liveSessionRef s; nextStartTimeRef :=
     nextStartTimeRef s; audioSourcesRef := audioSourcesRef s; started :=
     started s; stopped := stopped s; sent := sent s; errors := errors s;
     storedKey := storedKey s; clients := clients s; prompts := prompts s;
     idCalls := idCalls s |}.

Definition set_tasksRef (v : list Task) (s : State) : State :=
  {| tasks := tasks s; tasksRef := v; customApiKey := customApiKey s;
     isVoiceActive := isVoiceActive s; isVoiceConnecting := isVoiceConnecting
     s; voiceError := voiceError s; isBotSpeaking := isBotSpeaking s;
     audioContextRef := audioContextRef s; inputContextRef := inputContextRef
     s; liveSessionRef := liveSessionRef s; nextStartTimeRef :=
     nextStartTimeRef s; audioSourcesRef := audioSourcesRef s; started :=
     started s; stopped := stopped s; sent := sent s; errors := errors s;
     storedKey := storedKey s; clients := clients s; prompts := prompts s;
     idCalls := idCalls s |}.

Definition set_customApiKey (v : string) (s : State) : State :=
  {| tasks := tasks s; tasksRef := tasksRef s; customApiKey := v;
     isVoiceActive := isVoiceActive s; isVoiceConnecting := isVoiceConnecting
     s; voiceError := voiceError s; isBotSpeaking := isBotSpeaking s;
     audioContextRef := audioContextRef s; inputContextRef := inputContextRef
     s; liveSessionRef := liveSessionRef s; nextStartTimeRef :=
     nextStartTimeRef s; audioSourcesRef := audioSourcesRef s; started :=
     started s; stopped := stopped s; sent := sent s; errors := errors s;
     storedKey := storedKey s; clients := clients s; prompts := prompts s;
     idCalls := idCalls s |}.

Definition set_isVoiceActive (v : bool) (s : State) : State :=
  {| tasks := tasks s; tasksRef := tasksRef s; customApiKey :=
     customApiKey s; isVoiceActive := v; isVoiceConnecting :=
     isVoiceConnecting s; voiceError := voiceError s; isBotSpeaking :=
     isBotSpeaking s; audioContextRef := audioContextRef s; inputContextRef
     := inputContextRef s; liveSessionRef := liveSessionRef s;
     nextStartTimeRef := nextStartTimeRef s; audioSourcesRef :=
     audioSourcesRef s; started := started s; stopped := stopped s; sent :=
     sent s; errors := errors s; storedKey := storedKey s; clients := clients
     s; prompts := prompts s; idCalls := idCalls s |}.

Definition set_isVoiceConnecting (v : bool) (s : State) : State :=
  {| tasks := tasks s; tasksRef := tasksRef s; customApiKey :=
     customApiKey s; isVoiceActive := isVoiceActive s; isVoiceConnecting :=
     v; voiceError := voiceError s; isBotSpeaking := isBotSpeaking s;
     audioContextRef := audioContextRef s; inputContextRef := inputContextRef
     s; liveSessionRef := liveSessionRef s; nextStartTimeRef :=
     nextStartTimeRef s; audioSourcesRef := audioSourcesRef s; started :=
     started s; stopped := stopped s; sent := sent s; errors := errors s;
     storedKey := storedKey s; clients := clients s; prompts := prompts s;
     idCalls := idCalls s |}.

Definition set_voiceError (v : option string) (s : State) : State :=
  {| tasks := tasks s; tasksRef := tasksRef s; customApiKey :=
     customApiKey s; isVoiceActive := isVoiceActive s; isVoiceConnecting :=
     isVoiceConnecting s; voiceError := v; isBotSpeaking := isBotSpeaking s;
     audioContextRef := audioContextRef s; inputContextRef := inputContextRef
     s; liveSessionRef := liveSessionRef s; nextStartTimeRef :=
     nextStartTimeRef s; audioSourcesRef := audioSourcesRef s; started :=
     started s; stopped := stopped s; sent := sent s; errors := errors s;
     storedKey := storedKey s; clients := clients s; prompts := prompts s;
     idCalls := idCalls s |}.

Definition set_isBotSpeaking (v : bool) (s : State) : State :=
  {| tasks := tasks s; tasksRef := tasksRef s; customApiKey :=
     customApiKey s; isVoiceActive := isVoiceActive s; isVoiceConnecting :=
     isVoiceConnecting s; voiceError := voiceError s; isBotSpeaking := v;
     audioContextRef := audioContextRef s; inputContextRef := inputContextRef
     s; liveSessionRef := liveSessionRef s; nextStartTimeRef :=
     nextStartTimeRef s; audioSourcesRef := audioSourcesRef s; started :=
     started s; stopped := stopped s; sent := sent s; errors := errors s;
     storedKey := storedKey s; clients := clients s; prompts := prompts s;
     idCalls := idCalls s |}.

Definition set_audioContextRef (v : option N) (s : State) : State :=
  {| tasks := tasks s; tasksRef := tasksRef s; customApiKey :=
     customApiKey s; isVoiceActive := isVoiceActive s; isVoiceConnecting :=
     isVoiceConnecting s; voiceError := voiceError s; isBotSpeaking :=
     isBotSpeaking s; audioContextRef := v; inputContextRef :=
     inputContextRef s; liveSessionRef := liveSessionRef s; nextStartTimeRef
     := nextStartTimeRef s; audioSourcesRef := audioSourcesRef s; started :=
     started s; stopped := stopped s; sent := sent s; errors := errors s;
     storedKey := storedKey s; clients := clients s; prompts := prompts s;
     idCalls := idCalls s |}.

Definition set_inputContextRef (v : bool) (s : State) : State :=
  {| tasks := tasks s; tasksRef := tasksRef s; customApiKey :=
     customApiKey s; isVoiceActive := isVoiceActive s; isVoiceConnecting :=
     isVoiceConnecting s; voiceError := voiceError s; isBotSpeaking :=
     isBotSpeaking s; audioContextRef := audioContextRef s; inputContextRef
     := v; liveSessionRef := liveSessionRef s; nextStartTimeRef :=
     nextStartTimeRef s; audioSourcesRef := audioSourcesRef s; started :=
     started s; stopped := stopped s; sent := sent s; errors := errors s;
     storedKey := storedKey s; clients := clients s; prompts := prompts s;
     idCalls := idCalls s |}.

Definition set_liveSessionRef (v : bool) (s : State) : State :=
  {| tasks := tasks s; tasksRef := tasksRef s; customApiKey :=
     customApiKey s; isVoiceActive := isVoiceActive s; isVoiceConnecting :=
     isVoiceConnecting s; voiceError := voiceError s; isBotSpeaking :=
     isBotSpeaking s; audioContextRef := audioContextRef s; inputContextRef
     := inputContextRef s; liveSessionRef := v; nextStartTimeRef :=
     nextStartTimeRef s; audioSourcesRef := audioSourcesRef s; started :=
     started s; stopped := stopped s; sent := sent s; errors := errors s;
     storedKey := storedKey s; clients := clients s; prompts := prompts s;
     idCalls := idCalls s |}.

Definition set_nextStartTimeRef (v : N) (s : State) : State :=
  {| tasks := tasks s; tasksRef := tasksRef s; customApiKey :=
     customApiKey s; isVoiceActive := isVoiceActive s; isVoiceConnecting :=
     isVoiceConnecting s; voiceError := voiceError s; isBotSpeaking :=
     isBotSpeaking s; audioContextRef := audioContextRef s; inputContextRef
     := inputContextRef s; liveSessionRef := liveSessionRef s;
     nextStartTimeRef := v; audioSourcesRef := audioSourcesRef s; started :=
     started s; stopped := stopped s; sent := sent s; errors := errors s;
     storedKey := storedKey s; clients := clients s; prompts := prompts s;
     idCalls := idCalls s |}.

Definition set_audioSourcesRef (v : gset handle) (s : State) : State :=
  {| tasks := tasks s; tasksRef := tasksRef s; customApiKey :=
     customApiKey s; isVoiceActive := isVoiceActive s; isVoiceConnecting :=
     isVoiceConnecting s; voiceError := voiceError s; isBotSpeaking :=
     isBotSpeaking s; audioContextRef := audioContextRef s; inputContextRef
     := inputContextRef s; liveSessionRef := liveSessionRef s;
     nextStartTimeRef := nextStartTimeRef s; audioSourcesRef := v; started :=
     started s; stopped := stopped s; sent := sent s; errors := errors s;
     storedKey := storedKey s; clients := clients s; prompts := prompts s;
     idCalls := idCalls s |}.

Definition set_started (v : list SourceNode) (s : State) : State :=
  {| tasks := tasks s; tasksRef := tasksRef s; customApiKey :=
     customApiKey s; isVoiceActive := isVoiceActive s; isVoiceConnecting :=
     isVoiceConnecting s; voiceError := voiceError s; isBotSpeaking :=
     isBotSpeaking s; audioContextRef := audioContextRef s; inputContextRef
     := inputContextRef s; liveSessionRef := liveSessionRef s;
     nextStartTimeRef := nextStartTimeRef s; audioSourcesRef :=
     audioSourcesRef s; started := v; stopped := stopped s; sent := sent s;
     errors := errors s; storedKey := storedKey s; clients := clients s;
     prompts := prompts s; idCalls := idCalls s |}.

Definition set_stopped (v : gset handle) (s : State) : State :=
  {| tasks := tasks s; tasksRef := tasksRef s; customApiKey :=
     customApiKey s; isVoiceActive := isVoiceActive s; isVoiceConnecting :=
     isVoiceConnecting s; voiceError := voiceError s; isBotSpeaking :=
     isBotSpeaking s; audioContextRef := audioContextRef s; inputContextRef
     := inputContextRef s; liveSessionRef := liveSessionRef s;
     nextStartTimeRef := nextStartTimeRef s; audioSourcesRef :=
     audioSourcesRef s; started := started s; stopped := v; sent := sent s;
     errors := errors s; storedKey := storedKey s; clients := clients s;
     prompts := prompts s; idCalls := idCalls s |}.

Definition set_sent (v : list FunctionResponse) (s : State) : State :=
  {| tasks := tasks s; tasksRef := tasksRef s; customApiKey :=
     customApiKey s; isVoiceActive := isVoiceActive s; isVoiceConnecting :=
     isVoiceConnecting s; voiceError := voiceError s; isBotSpeaking :=
     isBotSpeaking s; audioContextRef := audioContextRef s; inputContextRef
     := inputContextRef s; liveSessionRef := liveSessionRef s;
     nextStartTimeRef := nextStartTimeRef s; audioSourcesRef :=
     audioSourcesRef s; started := started s; stopped := stopped s; sent :=
     v; errors := errors s; storedKey := storedKey s; clients := clients s;
     prompts := prompts s; idCalls := idCalls s |}.

Definition set_errors (v : list string) (s : State) : State :=
  {| tasks := tasks s; tasksRef := tasksRef s; customApiKey :=
     customApiKey s; isVoiceActive := isVoiceActive s; isVoiceConnecting :=
     isVoiceConnecting s; voiceError := voiceError s; isBotSpeaking :=
     isBotSpeaking s; audioContextRef := audioContextRef s; inputContextRef
     := inputContextRef s; liveSessionRef := liveSessionRef s;
     nextStartTimeRef := nextStartTimeRef s; audioSourcesRef :=
     audioSourcesRef s; started := started s; stopped := stopped s; sent :=
     sent s; errors := v; storedKey := storedKey s; clients := clients s;
     prompts := prompts s; idCalls := idCalls s |}.

Definition set_storedKey (v : option string) (s : State) : State :=
  {| tasks := tasks s; tasksRef := tasksRef s; customApiKey :=
     customApiKey s; isVoiceActive := isVoiceActive s; isVoiceConnecting :=
     isVoiceConnecting s; voiceError := voiceError s; isBotSpeaking :=
     isBotSpeaking s; audioContextRef := audioContextRef s; inputContextRef
     := inputContextRef s; liveSessionRef := liveSessionRef s;
     nextStartTimeRef := nextStartTimeRef s; audioSourcesRef :=
     audioSourcesRef s; started := started s; stopped := stopped s; sent :=
     sent s; errors := errors s; storedKey := v; clients := clients s;
     prompts := prompts s; idCalls := idCalls s |}.

Definition set_clients (v : list string) (s : State) : State :=
  {| tasks := tasks s; tasksRef := tasksRef s; customApiKey :=
     customApiKey s; isVoiceActive := isVoiceActive s; isVoiceConnecting :=
     isVoiceConnecting s; voiceError := voiceError s; isBotSpeaking :=
     isBotSpeaking s; audioContextRef := audioContextRef s; inputContextRef
     := inputContextRef s; liveSessionRef := liveSessionRef s;
     nextStartTimeRef := nextStartTimeRef s; audioSourcesRef :=
     audioSourcesRef s; started := started s; stopped := stopped s; sent :=
     sent s; errors := errors s; storedKey := storedKey s; clients := v;
     prompts := prompts s; idCalls := idCalls s |}.

Definition set_prompts (v : nat) (s : State) : State :=
  {| tasks := tasks s; tasksRef := tasksRef s; customApiKey :=
     customApiKey s; isVoiceActive := isVoiceActive s; isVoiceConnecting :=
     isVoiceConnecting s; voiceError := voiceError s; isBotSpeaking :=
     isBotSpeaking s; audioContextRef := audioContextRef s; inputContextRef
     := inputContextRef s; liveSessionRef := liveSessionRef s;
     nextStartTimeRef := nextStartTimeRef s; audioSourcesRef :=
     audioSourcesRef s; started := started s; stopped := stopped s; sent :=
     sent s; errors := errors s; storedKey := storedKey s; clients := clients
     s; prompts := v; idCalls := idCalls s |}.

Definition set_idCalls (v : nat) (s : State) : State :=
  {| tasks := tasks s; tasksRef := tasksRef s; customApiKey :=
     customApiKey s; isVoiceActive := isVoiceActive s; isVoiceConnecting :=
     isVoiceConnecting s; voiceError := voiceError s; isBotSpeaking :=
     isBotSpeaking s; audioContextRef := audioContextRef s; inputContextRef
     := inputContextRef s; liveSessionRef := liveSessionRef s;
     nextStartTimeRef := nextStartTimeRef s; audioSourcesRef :=
     audioSourcesRef s; started := started s; stopped := stopped s; sent :=
     sent s; errors := errors s; storedKey := storedKey s; clients := clients
     s; prompts := prompts s; idCalls := v |}.

(** The state of a freshly mounted component. *)
Definition initial : State :=
  {| tasks := []; tasksRef := []; customApiKey := "";
     isVoiceActive := false; isVoiceConnecting := false;
     voiceError := None; isBotSpeaking := false;
     audioContextRef := None; inputContextRef := false;
     liveSessionRef := false; nextStartTimeRef := 0;
     audioSourcesRef := ∅; started := []; stopped := ∅; sent := [];
     errors := []; storedKey := None; clients := []; prompts := 0;
     idCalls := 0 |}.

(** ** What the browser supplies to [connectVoice] *)

(** [window.aistudio]: the answers of [hasSelectedApiKey()] and of
    [openSelectKey()]. *)
Record AiStudio := {
  hasSelectedApiKey : bool;
  openSelectKey : bool
}.

(** [aistudio] is [None] when [window.aistudio] is undefined;
    [envApiKey] is the result of [getEnvApiKey()], empty when there is
    none; [promptAnswer] is what [prompt] returns, [None] for [null];
    [storageAvailable] tells whether [localStorage] calls succeed, and
    [microphoneGranted] whether [getUserMedia] resolves. *)
Record Browser := {
  aistudio : option AiStudio;
  envApiKey : string;
  promptAnswer : option string;
  storageAvailable : bool;
  microphoneGranted : bool
}.

(** How a handler ends. *)
Inductive Completion := Returned | Threw.

Section Handlers.

(** [generateId()] and [Date.now()] at the n-th task creation. *)
Variable generateId : nat -> string.
Variable Date_now : nat -> N.

(** [decodeAudioData(base64ToBytes(data), ctx)] of [utils/pcm]: the
    duration of the decoded buffer, [None] when one of the two calls
    throws. *)
Variable decodeAudioData : string -> option N.

(** *** Task handlers *)

Definition addTask (t : string) (s : State) : State :=
  if negb (truthy (trim t)) then s
  else
    let newTask := {| id := generateId (idCalls s); text := t;
                      completed := false;
                      createdAt := Date_now (idCalls s) |} in
    set_idCalls (S (idCalls s)) (set_tasks (newTask :: tasks s) s).

Definition deleteTask (i : string) (s : State) : State :=
  set_tasks (filter (λ t, id t ≠ i) (tasks s)) s.

Definition clearAllTasks (s : State) : State := set_tasks [] s.

(** The effect that keeps [tasksRef] in sync, run after a render. *)
Definition syncTasksRef (s : State) : State := set_tasksRef (tasks s) s.

(** *** Playback scheduler *)

(** [audioSourcesRef.current.forEach(source => source.stop())] *)
Definition stopAll (s : State) : State :=
  set_stopped (audioSourcesRef s ∪ stopped s) s.

(** The interruption branch of [onmessage]. *)
Definition interrupt (s : State) : State :=
  let s := stopAll s in
  let s := set_audioSourcesRef ∅ s in
  let s := set_nextStartTimeRef 0 s in
  set_isBotSpeaking false s.

Definition disconnectVoice (s : State) : State :=
  let s := set_liveSessionRef false s in
  let s := set_inputContextRef false s in
  let s := stopAll s in
  let s := set_audioSourcesRef ∅ s in
  let s := set_isVoiceActive false s in
  let s := set_isVoiceConnecting false s in
  set_isBotSpeaking false s.

(** [source.onended] of the source node [h]. *)
Definition onended (h : handle) (s : State) : State :=
  let s := set_audioSourcesRef (audioSourcesRef s ∖ {[h]}) s in
  if bool_decide (size (audioSourcesRef s) = 0)
  then set_isBotSpeaking false s else s.

(** [nextStartTimeRef.current =
     Math.max(nextStartTimeRef.current, ctx.currentTime)] *)
Definition alignCursor (now : N) (s : State) : State :=
  set_nextStartTimeRef (N.max (nextStartTimeRef s) now) s.

(** The body of the [try] block once the buffer of duration [dur] is
    decoded: the source starts at the cursor, the cursor advances by
    the duration and the source joins [audioSourcesRef]. *)
Definition startSource (now dur : N) (s : State) : State :=
  let h := length (started s) in
  let node := {| when := nextStartTimeRef s; duration := dur;
                 calledAt := now |} in
  let s := set_started (started s ++ [node]) s in
  let s := set_nextStartTimeRef (nextStartTimeRef s + dur) s in
  set_audioSourcesRef ({[h]} ∪ audioSourcesRef s) s.

(** Scheduling one decoded fragment at clock reading [now]. *)
Definition schedulePlayback (now dur : N) (s : State) : State :=
  startSource now dur (alignCursor now (set_isBotSpeaking true s)).

(** The audio branch of [onmessage]. *)
Definition handleAudio (msg : LiveServerMessage) (s : State) : State :=
  match audioData msg, audioContextRef s with
  | Some data, Some now =>
      if truthy data then
        let s := set_isBotSpeaking true s in
        let s := alignCursor now s in
        match decodeAudioData data with
        | Some dur => startSource now dur s
        | None => set_errors (errors s ++ ["Audio Decode Error"]) s
        end
      else s
  | _, _ => s
  end.

(** *** Tool bridge *)

(** [t.text.toLowerCase().includes(text.toLowerCase())] *)
Definition matchesText (needle : string) (t : Task) : bool :=
  includes (toLowerCase (text t)) (toLowerCase needle).

(** One turn of the loop over [functionCalls] up to the response: the
    new state and the result string, [None] when the body throws (a
    method call on an undefined [text]). *)
Definition dispatch (fc : FunctionCall) (s : State)
  : option (State * string) :=
  if String.eqb (call_name fc) "addTask" then
    match call_text fc with
    | Some t => Some (addTask t s, "Added task: " ++ t)
    | None => None
    end
  else if String.eqb (call_name fc) "removeTask" then
    match call_text fc with
    | Some t =>
        match find (matchesText t) (tasksRef s) with
        | Some taskToRemove =>
            Some (deleteTask (id taskToRemove) s,
                  "Removed task: " ++ text taskToRemove)
        | None => Some (s, "Could not find task matching " ++ t)
        end
    | None =>
        match tasksRef s with
        | [] => Some (s, "Could not find task matching undefined")
        | _ :: _ => None
        end
    end
  else if String.eqb (call_name fc) "getTasks" then
    let list := join ", " (map text (tasksRef s)) in
    Some (s, if truthy list then "Your list has: " ++ list
             else "Your list is empty.")
  else if String.eqb (call_name fc) "clearAllTasks" then
    Some (clearAllTasks s, "All tasks cleared.")
  else Some (s, "ok").

(** [session.sendToolResponse] for the entry [fc]. *)
Definition respond (fc : FunctionCall) (result : string) (s : State)
  : State :=
  set_sent (sent s ++ [{| resp_id := call_id fc;
                          resp_name := call_name fc;
                          resp_result := result |}]) s.

(** The loop over [msg.toolCall.functionCalls]. *)
Fixpoint toolCalls (calls : list FunctionCall) (s : State)
  : State * Completion :=
  match calls with
  | [] => (s, Returned)
  | fc :: rest =>
      match dispatch fc s with
      | Some (s', result) => toolCalls rest (respond fc result s')
      | None => (s, Threw)
      end
  end.

(** *** The message handler *)

Definition onmessage (msg : LiveServerMessage) (s : State)
  : State * Completion :=
  let s := handleAudio msg s in
  let s := if interrupted msg then interrupt s else s in
  match toolCall msg with
  | Some calls => toolCalls calls s
  | None => (s, Returned)
  end.

(** The tool-call part of [onmessage] alone, from the state [s1] the
    audio and interruption branches produced. *)
Definition afterTools (msg : LiveServerMessage) (s1 : State) : State :=
  fst (match toolCall msg with
       | Some calls => toolCalls calls s1
       | None => (s1, Returned)
       end).

(** *** Credentials and connection *)

(** [handleSetKey]: with [window.aistudio] the key dialog of the host
    is opened; otherwise the user is prompted and a non-empty answer
    is stored and becomes [customApiKey]. *)
Definition handleSetKey (w : Browser) (s : State) : State :=
  match aistudio w with
  | Some _ => s
  | None =>
      let s := set_prompts (S (prompts s)) s in
      match promptAnswer w with
      | Some key =>
          if truthy key then
            let s := if storageAvailable w
                     then set_storedKey (Some key) s else s in
            set_customApiKey key s
          else s
      | None => s
      end
  end.

(** The [try] block of [connectVoice] down to the assignment of
    [liveSessionRef]; a refused microphone is the failure that is
    modelled. The output context is new: its clock reads 0. *)
Definition openSession (apiKey : string) (w : Browser) (s : State)
  : State :=
  let s := set_isVoiceConnecting true s in
  let s := set_voiceError None s in
  if microphoneGranted w then
    let s := set_inputContextRef true s in
    let s := set_audioContextRef (Some 0%N) s in
    let s := set_clients
               (clients s ++
                [if truthy apiKey then apiKey else envApiKey w]) s in
    set_liveSessionRef true s
  else
    let s := set_voiceError (Some "Could not start voice") s in
    set_isVoiceConnecting false s.

Definition connectVoice (w : Browser) (s : State) : State :=
  let apiKey := customApiKey s in
  let refused :=
    match aistudio w with
    | Some a => negb (hasSelectedApiKey a) && negb (openSelectKey a)
    | None => false
    end in
  if refused then set_voiceError (Some "API Key required") s
  else
    let envKey := envApiKey w in
    let apiKey :=
      if negb (truthy apiKey) && truthy envKey then envKey
      else apiKey in
    if negb (truthy apiKey) && negb (bool_decide (is_Some (aistudio w)))
    then
      let s := handleSetKey w s in
      let apiKey :=
        if storageAvailable w then default "" (storedKey s)
        else apiKey in
      if negb (truthy apiKey)
      then set_voiceError (Some "No API Key set.") s
      else openSession apiKey w s
    else openSession apiKey w s.

(** [onopen] *)
Definition onopen (s : State) : State :=
  set_isVoiceActive true (set_isVoiceConnecting false s).

(** [onerror] *)
Definition onerror (s : State) : State :=
  disconnectVoice (set_voiceError (Some "Connection failed") s).

Definition toggleVoice (w : Browser) (s : State) : State :=
  if isVoiceActive s || isVoiceConnecting s then disconnectVoice s
  else connectVoice w s.

(** *** Events *)

(** What can happen to a mounted component: a render commits and the
    sync effect runs, the output clock advances, the user presses the
    voice button, the session calls one of its callbacks, a source
    node ends. *)
Inductive Event :=
| Render
| Tick (dt : N)
| VoiceButton (w : Browser)
| SessionOpened
| SessionMessage (msg : LiveServerMessage)
| SessionClosed
| SessionError
| SourceEnded (h : handle).

Definition step (s : State) (ev : Event) : State :=
  match ev with
  | Render => syncTasksRef s
  | Tick dt => set_audioContextRef (N.add dt <$> audioContextRef s) s
  | VoiceButton w => toggleVoice w s
  | SessionOpened => onopen s
  | SessionMessage msg => fst (onmessage msg s)
  | SessionClosed => disconnectVoice s
  | SessionError => onerror s
  | SourceEnded h => onended h s
  end.

Definition run (s : State) (evs : list Event) : State :=
  foldl step s evs.

(** The states a mounted component can be in. *)
Definition reachable (s : State) : Prop :=
  exists evs, s = run initial evs.

(** The event runs the interruption branch. *)
Definition interrupts (ev : Event) : bool :=
  match ev with
  | SessionMessage msg => interrupted msg
  | _ => false
  end.

(** Every audio payload the event carries can be decoded. *)
Definition decodes (ev : Event) : Prop :=
  match ev with
  | SessionMessage msg =>
      forall data, audioData msg = Some data -> is_Some (decodeAudioData data)
  | _ => True
  end.

End Handlers.

(** ** Frames *)

(** [s'] has the cursor and the started sources of [s]. *)
Definition sameSchedule (s s' : State) : Prop :=
  nextStartTimeRef s' = nextStartTimeRef s /\ started s' = started s.

(** [s'] differs from [s] at most in the task list, the number of
    identifiers drawn and the tool responses sent. *)
Definition toolsFrame (s s' : State) : Prop :=
  s' = set_sent (sent s') (set_idCalls (idCalls s') (set_tasks (tasks s') s)).

(** [s'] differs from [s] at most in the lines written to the console. *)
Definition onlyLogged (s s' : State) : Prop :=
  set_errors (errors s) s' = s.

(** ** Tool calls *)

(** The operations the tool bridge declares. *)
Definition knownTools : list string :=
  ["addTask"; "removeTask"; "getTasks"; "clearAllTasks"].

(** The operations declared with a required [text] argument. *)
Definition takesText (name : string) : bool :=
  String.eqb name "addTask" || String.eqb name "removeTask".

(** The entry carries the arguments its operation is declared with. *)
Definition hasArguments (fc : FunctionCall) : Prop :=
  takesText (call_name fc) = true -> is_Some (call_text fc).

(** The entry [fc], received alone in state [s], is answered: its handler
    sends one response carrying the identifier and name of the entry. *)
Definition answered (generateId : nat -> string) (Date_now : nat -> N)
  (fc : FunctionCall) (s : State) : Prop :=
  exists result,
    sent (fst (toolCalls generateId Date_now [fc] s)) =
    (sent s ++ [{| resp_id := call_id fc; resp_name := call_name fc;
                   resp_result := result |}])%list.

(** [needle] occurs in [haystack] when letter case is ignored. *)
Definition containsIgnoringCase (haystack needle : string) : Prop :=
  exists pre post,
    toLowerCase haystack = pre ++ toLowerCase needle ++ post.

(** ** Playback intervals *)





(** The cursor is not behind the output clock. *)
Definition cursorAhead (s : State) : Prop :=
  forall now, audioContextRef s = Some now -> (now <= nextStartTimeRef s)%N.

(** The speaking indicator agrees with the set of active sources. *)
Definition speakingAgrees (s : State) : Prop :=
  isBotSpeaking s = true <-> audioSourcesRef s <> ∅.

End App.

(** ** Credentials *)

Module Credential.

Import JsString App.







End Credential.

(** ** Sample inputs *)

Module Sample.

Import App.

Definition generateId (n : nat) : string :=
  "task-" ++ String (ascii_of_nat (48 + n)) EmptyString.

Definition Date_now (n : nat) : N := 1700000000000 + N.of_nat n.

(** A decoder that rejects the payload ["!"] and gives every other
    payload one tick per character. *)
Definition decodeAudioData (data : string) : option N :=
  if String.eqb data "!" then None else Some (N.of_nat (String.length data)).

Definition run : State -> list Event -> State :=
  App.run generateId Date_now decodeAudioData.

Definition onmessage : LiveServerMessage -> State -> State * Completion :=
  App.onmessage generateId Date_now decodeAudioData.

Definition toolCalls : list FunctionCall -> State -> State * Completion :=
  App.toolCalls generateId Date_now.

(** A browser without [window.aistudio], with a key in the environment. *)
Definition browser : Browser :=
  {| aistudio := None; envApiKey := "env-key"; promptAnswer := None;
     storageAvailable := true; microphoneGranted := true |}.

Definition audio (data : string) : LiveServerMessage :=
  {| audioData := Some data; interrupted := false; toolCall := None |}.

Definition interruption : LiveServerMessage :=
  {| audioData := None; interrupted := true; toolCall := None |}.

Definition call (name : string) (arg : option string) : FunctionCall :=
  {| call_id := "call-1"; call_name := name; call_text := arg |}.

(** The session is open and nothing has been played. *)
Definition opened : State := run initial [VoiceButton browser; SessionOpened].

(** The session has been open for five ticks. *)
Definition idle : State := run opened [Tick 5].

(** One fragment of two ticks has been scheduled. *)
Definition playing : State := run opened [SessionMessage (audio "ab")].

(** A payload that does not decode arrives on the open session. *)
Definition decodeFailed : State := run opened [SessionMessage (audio "!")].

(** The session is closed while a fragment plays, a new one is opened and
    its first fragment arrives at once. *)
Definition reconnected : State :=
  run playing [SessionClosed; VoiceButton browser; SessionOpened;
               SessionMessage (audio "abc")].

(** Two fragments, the second one arriving ten ticks after the first. *)
Definition twoFragments : list Event :=
  [SessionMessage (audio "ab"); Tick 10; SessionMessage (audio "abc")].

(** A task list with two entries, mirrored in [tasksRef]. *)
Definition groceries : State :=
  run opened
    [SessionMessage
       {| audioData := None; interrupted := false;
          toolCall := Some [call "addTask" (Some "Walk the dog");
                            call "addTask" (Some "Buy milk and eggs")] |};
     Render].

End Sample.

(** ** Numbers shown as text *)

Module JsNumber.

(** The decimal digits of a natural number. *)
Definition digits (n : N) : string :=
  NilZero.string_of_uint (N.to_uint n).

(** [Number.MAX_SAFE_INTEGER]: every whole number up to it is a double. *)
Definition MAX_SAFE_INTEGER : N := 2 ^ 53 - 1.

(** [String(n)] for a whole number from 0 to [MAX_SAFE_INTEGER]: its
    decimal digits.  Larger numbers are outside the model ([None]): not
    every one of them is a double, and from 1e21 on JavaScript prints
    exponent notation. *)
Definition toString (n : N) : option string :=
  if (n <=? MAX_SAFE_INTEGER)%N then Some (digits n) else None.

(** [k] copies of the character [c]. *)
Fixpoint filler (k : nat) (c : ascii) : string :=
  match k with
  | O => EmptyString
  | S k' => String c (filler k' c)
  end.

(** [s.padStart(n, c)] for a pad string of one character. *)
Definition padStart (n : nat) (c : ascii) (s : string) : string :=
  filler (n - String.length s) c ++ s.

(** The number a string of decimal digits denotes, leading zeros
    allowed. *)
Definition readDecimal (s : string) : option N :=
  option_map N.of_uint (NilZero.uint_of_string s).

(** [formatTime] on a whole number of milliseconds from 0 to
    [MAX_SAFE_INTEGER].  In that range [ms / 1000] and
    [totalSeconds / 60] round to doubles whose [Math.floor] is the
    integer quotient, and [%] is exact; larger arguments are outside the
    model ([None]). *)
Definition formatTime (ms : N) : option string :=
  if (ms <=? MAX_SAFE_INTEGER)%N then
    let totalSeconds := (ms / 1000)%N in
    let minutes := (totalSeconds / 60)%N in
    let seconds := (totalSeconds mod 60)%N in
    match toString minutes, toString seconds with
    | Some mm, Some ss => Some (mm ++ ":" ++ padStart 2 "0" ss)
    | _, _ => None
    end
  else None.

(** The seconds field of the count [k] has two characters and reads back
    as [k]. *)
Definition twoDigits (k : nat) : bool :=
  let n := N.of_nat k in
  let ss := padStart 2 "0" (digits n) in
  Nat.eqb (String.length ss) 2 &&
  match readDecimal ss with
  | Some m => N.eqb m n
  | None => false
  end.

End JsNumber.

(** ** The key kept in [localStorage] *)

Module StoredKey.

Import JsString App.

(** The effect that loads the key on mount: a non-empty stored entry
    becomes [customApiKey]; a failing [localStorage] only warns. *)
Definition loadStoredKey (w : Browser) (s : State) : State :=
  if storageAvailable w then
    match storedKey s with
    | Some k => if truthy k then set_customApiKey k s else s
    | None => s
    end
  else s.

(** [isKeyMissing] of the render. *)
Definition isKeyMissing (w : Browser) (s : State) : bool :=
  negb (truthy (customApiKey s)) && negb (truthy (envApiKey w)).

End StoredKey.

(** ** The task list, the settings and the timer of the page *)

Module Page.

Import JsString JsNumber App.

(** [SoundType] of the type declarations. *)
Inductive SoundType := CLICK | ADD | DELETE | ALARM.

(** [AppSettings] of the type declarations. *)
Record AppSettings := {
  soundEnabled : bool;
  timerEnabled : bool;
  timerIntervalMinutes : N
}.

Definition TIMER_INTERVAL_MS : N := 30 * 60 * 1000.

(** The component state of [App] beside the voice session: the state
    [app] modelled above, the text of the input field, the settings, the
    time left on the timer, and the sounds [playSound] was asked for. *)
Record Page := {
  app : State;
  inputText : string;
  settings : AppSettings;
  timeLeft : N;
  played : list SoundType
}.

Definition set_app (v : State) (p : Page) : Page :=
  {| app := v; inputText := inputText p; settings := settings p;
     timeLeft := timeLeft p; played := played p |}.

Definition set_inputText (v : string) (p : Page) : Page :=
  {| app := app p; inputText := v; settings := settings p;
     timeLeft := timeLeft p; played := played p |}.

Definition set_settings (v : AppSettings) (p : Page) : Page :=
  {| app := app p; inputText := inputText p; settings := v;
     timeLeft := timeLeft p; played := played p |}.

Definition set_timeLeft (v : N) (p : Page) : Page :=
  {| app := app p; inputText := inputText p; settings := settings p;
     timeLeft := v; played := played p |}.

Definition set_played (v : list SoundType) (p : Page) : Page :=
  {| app := app p; inputText := inputText p; settings := settings p;
     timeLeft := timeLeft p; played := v |}.

(** The page as first rendered. *)
Definition mounted : Page :=
  {| app := initial; inputText := "";
     settings := {| soundEnabled := true; timerEnabled := true;
                    timerIntervalMinutes := 30 |};
     timeLeft := TIMER_INTERVAL_MS; played := [] |}.

(** The task [t] with its completion flag inverted. *)
Definition flipped (t : Task) : Task :=
  {| id := id t; text := text t; completed := negb (completed t);
     createdAt := createdAt t |}.

(** The updater of [toggleComplete]. *)
Definition toggleIn (i : string) (l : list Task) : list Task :=
  map (fun t => if String.eqb (id t) i then flipped t else t) l.

Section Handlers.

Variable generateId : nat -> string.
Variable Date_now : nat -> N.

Definition triggerSound (type : SoundType) (p : Page) : Page :=
  if soundEnabled (settings p) then set_played (played p ++ [type])%list p
  else p.

(** [addTask] with its sound. *)
Definition addTask (t : string) (p : Page) : Page :=
  if negb (truthy (trim t)) then p
  else triggerSound ADD
         (set_app (App.addTask generateId Date_now t (app p)) p).

Definition handleFormSubmit (p : Page) : Page :=
  set_inputText "" (addTask (inputText p) p).

(** [deleteTask] with its sound. *)
Definition deleteTask (i : string) (p : Page) : Page :=
  triggerSound DELETE (set_app (App.deleteTask i (app p)) p).

Definition toggleComplete (i : string) (p : Page) : Page :=
  triggerSound CLICK
    (set_app (set_tasks (toggleIn i (tasks (app p))) (app p)) p).

(** The timer effect, run when [settings.timerEnabled] or [triggerSound]
    changes: with the timer enabled a new interval is set up, otherwise
    the time left is put back to the full interval. *)
Definition timerEffect (p : Page) : Page :=
  if timerEnabled (settings p) then p else set_timeLeft TIMER_INTERVAL_MS p.

Definition toggleSound (p : Page) : Page :=
  timerEffect
    (set_settings
       {| soundEnabled := negb (soundEnabled (settings p));
          timerEnabled := timerEnabled (settings p);
          timerIntervalMinutes := timerIntervalMinutes (settings p) |} p).

Definition toggleTimer (p : Page) : Page :=
  let p1 :=
    set_settings
      {| soundEnabled := soundEnabled (settings p);
         timerEnabled := negb (timerEnabled (settings p));
         timerIntervalMinutes := timerIntervalMinutes (settings p) |} p in
  timerEffect (triggerSound CLICK p1).

(** The callback of the one-second interval, which exists only while the
    timer is enabled. *)
Definition timerTick (p : Page) : Page :=
  if timerEnabled (settings p) then
    if (timeLeft p <=? 1000)%N
    then set_timeLeft TIMER_INTERVAL_MS (triggerSound ALARM p)
    else set_timeLeft (timeLeft p - 1000) p
  else p.

(** What the user and the clock do to the page. *)
Inductive Action :=
| TypeText (v : string)
| Submit
| Delete (i : string)
| ToggleComplete (i : string)
| ToggleSound
| ToggleTimer
| Second.

Definition act (p : Page) (a : Action) : Page :=
  match a with
  | TypeText v => set_inputText v p
  | Submit => handleFormSubmit p
  | Delete i => deleteTask i p
  | ToggleComplete i => toggleComplete i p
  | ToggleSound => toggleSound p
  | ToggleTimer => toggleTimer p
  | Second => timerTick p
  end.

Definition perform (p : Page) (acts : list Action) : Page :=
  foldl act p acts.

End Handlers.

(** The time left is a whole number of seconds between one second and
    the full interval. *)
Definition timerInRange (p : Page) : Prop :=
  (1000 <= timeLeft p <= TIMER_INTERVAL_MS)%N /\
  (timeLeft p mod 1000 = 0)%N.

End Page.

(** ** Well-formed states *)

Module Shape.

Import JsString App.

(** Every task has a text that is not blank. *)
Definition textsNotBlank (l : list Task) : Prop :=
  Forall (fun t => blank (text t) = false) l.

(** The entry cannot be handled in a state whose mirror is [l]: its
    [text] is missing and its operation calls a method on it. *)
Definition lacksText (l : list Task) (fc : FunctionCall) : Prop :=
  call_text fc = None /\
  (call_name fc = "addTask" \/ (call_name fc = "removeTask" /\ l <> [])).

(** The flags of the session as the header shows them: never connecting
    and active at once. *)
Definition flagsConsistent (s : State) : Prop :=
  isVoiceConnecting s = true -> isVoiceActive s = false.

(** Every active or stopped handle names a source that was started. *)
Definition handlesStarted (s : State) : Prop :=
  forall h, h ∈ audioSourcesRef s ∪ stopped s ->
    (h < length (started s))%nat.

(** No source was started at a time the clock had already passed. *)
Definition neverInPast (s : State) : Prop :=
  Forall (fun n => (calledAt n <= when n)%N) (started s).

End Shape.

(** ** Further sample inputs *)

Module Scenario.

Import JsNumber App Page.

(** Identifiers that never repeat: the decimal digits of the count. *)
Definition generateId (n : nat) : string := digits (N.of_nat n).

(** A browser whose user types a key at the prompt; nothing is stored
    and the environment has no key. *)
Definition typing : Browser :=
  {| aistudio := None; envApiKey := ""; promptAnswer := Some "typed-key";
     storageAvailable := true; microphoneGranted := true |}.

(** The same with [localStorage] failing. *)
Definition typingWithoutStorage : Browser :=
  {| aistudio := None; envApiKey := ""; promptAnswer := Some "typed-key";
     storageAvailable := false; microphoneGranted := true |}.

(** A browser with a key in the environment and the microphone
    refused. *)
Definition noMicrophone : Browser :=
  {| aistudio := None; envApiKey := "env-key"; promptAnswer := None;
     storageAvailable := true; microphoneGranted := false |}.

Definition dog : Task :=
  {| id := "task-0"; text := "Walk the dog"; completed := false;
     createdAt := 1700000000000 |}.

Definition milk : Task :=
  {| id := "task-1"; text := "Buy milk and eggs"; completed := false;
     createdAt := 1700000000001 |}.

(** A component with two tasks, mirrored in [tasksRef]. *)
Definition listed : State :=
  set_idCalls 2 (set_tasksRef [milk; dog] (set_tasks [milk; dog] initial)).

(** An output context at clock 0 with the cursor five ticks ahead. *)
Definition ahead : State :=
  set_nextStartTimeRef 5 (set_audioContextRef (Some 0%N) initial).

(** An active session with an output context and nothing playing. *)
Definition active : State :=
  set_isVoiceActive true (set_audioContextRef (Some 0%N) initial).

(** Two sources are playing. *)
Definition twoPlaying : State :=
  set_isBotSpeaking true
    (set_audioSourcesRef {[ 0%nat; 1%nat ]}
       (set_started [{| when := 0; duration := 2; calledAt := 0 |};
                     {| when := 2; duration := 3; calledAt := 1 |}]
          active)).

Definition getTasksCall : FunctionCall :=
  {| call_id := "call-1"; call_name := "getTasks"; call_text := None |}.

Definition clearCall : FunctionCall :=
  {| call_id := "call-2"; call_name := "clearAllTasks"; call_text := None |}.

(** An [addTask] entry that lacks its [text]. *)
Definition brokenCall : FunctionCall :=
  {| call_id := "call-3"; call_name := "addTask"; call_text := None |}.

(** An entry whose operation is none of the four. *)
Definition flyCall : FunctionCall :=
  {| call_id := "call-5"; call_name := "fly"; call_text := None |}.

(** [removeTask] with the argument ["MILK"]. *)
Definition removeMilk : FunctionCall :=
  {| call_id := "call-6"; call_name := "removeTask";
     call_text := Some "MILK" |}.

(** [addTask] and [removeTask] for the same new task. *)
Definition addBread : FunctionCall :=
  {| call_id := "call-7"; call_name := "addTask";
     call_text := Some "Buy bread" |}.

Definition removeBread : FunctionCall :=
  {| call_id := "call-8"; call_name := "removeTask";
     call_text := Some "bread" |}.

(** A message that carries tool calls and nothing else. *)
Definition toolMessage (calls : list FunctionCall) : LiveServerMessage :=
  {| audioData := None; interrupted := false; toolCall := Some calls |}.

(** A fragment that carries the interruption flag as well. *)
Definition flaggedFragment : LiveServerMessage :=
  {| audioData := Some "ab"; interrupted := true; toolCall := None |}.

(** An [addTask] entry with a text of two spaces. *)
Definition blankAdd : LiveServerMessage :=
  {| audioData := None; interrupted := false;
     toolCall := Some [{| call_id := "call-4"; call_name := "addTask";
                          call_text := Some "  " |}] |}.


(** The page with the two sample tasks and ["Call mum"] typed in. *)
Definition page : Page :=
  set_inputText "Call mum" (set_app listed mounted).

(** The same page with the sound switched off. *)
Definition quiet : Page :=
  set_settings {| soundEnabled := false; timerEnabled := true;
                  timerIntervalMinutes := 30 |} page.

(** An afternoon of clicks that leaves the sound setting alone. *)
Definition clicks : list Action :=
  [Submit; ToggleComplete "task-0"; Delete "task-1"; ToggleTimer;
   ToggleTimer; Second].

End Scenario.

(** ** Facts about the string primitives *)

Module JsStringFacts.

Import JsString.

Lemma startsWith_spec s p :
  startsWith s p = true <-> exists post, s = p ++ post.
Proof.
  revert s; induction p as [|b p IH]; intros s; simpl.
  - split; [intros _; by exists s | done].
  - destruct s as [|a s]; simpl.
    + split; [discriminate | intros [post H]; discriminate].
    + rewrite andb_true_iff, bool_decide_eq_true, IH. split.
      * intros [-> [post ->]]. eauto.
      * intros [post H]. injection H as -> ->. eauto.
Qed.

(** [includes] decides the substring relation. *)
Lemma includes_spec s sub :
  includes s sub = true <-> exists pre post, s = pre ++ sub ++ post.
Proof.
  induction s as [|a s IH]; simpl.
  - rewrite orb_false_r, startsWith_spec. split.
    + intros [post H]. exists EmptyString, post. exact H.
    + intros [pre [post H]]. destruct pre; simpl in H; [eauto | discriminate].
  - rewrite orb_true_iff, startsWith_spec, IH. split.
    + intros [[post H] | [pre [post H]]].
      * exists EmptyString, post. exact H.
      * exists (String a pre), post. simpl. by rewrite H.
    + intros [pre [post H]]. destruct pre as [|b pre]; simpl in H.
      * left. eauto.
      * right. injection H as _ ->. eauto.
Qed.

Lemma trimEnd_empty s : trimEnd s = EmptyString <-> blank s = true.
Proof.
  induction s as [|c s IH]; simpl; [done|].
  destruct (trimEnd s) eqn:E.
  - destruct (isWhitespace c); simpl.
    + split; [intros _; by apply IH | done].
    + split; discriminate.
  - destruct (isWhitespace c); simpl.
    + split; [discriminate | intros Hb; apply IH in Hb; discriminate].
    + split; discriminate.
Qed.

Lemma blank_trimStart s : blank (trimStart s) = blank s.
Proof.
  induction s as [|c s IH]; simpl; [done|].
  destruct (isWhitespace c) eqn:E; simpl; [exact IH | by rewrite E].
Qed.

(** [!text.trim()] holds exactly for the blank strings. *)
Lemma trim_falsy s : negb (truthy (trim s)) = blank s.
Proof.
  unfold trim. rewrite <- (blank_trimStart s).
  pose proof (trimEnd_empty (trimStart s)) as H.
  destruct (trimEnd (trimStart s)); simpl.
  - symmetry. by apply H.
  - destruct (blank (trimStart s)); [|done].
    by destruct H as [_ H]; specialize (H eq_refl).
Qed.

End JsStringFacts.

(** ** What the handlers leave alone *)

Module Frame.

Import JsString App.

Local Open Scope list_scope.

Ltac fields :=
  repeat first
    [ progress simpl in *
    | match goal with
      | |- context [if ?b then _ else _] => destruct b eqn:?
      | |- context [match ?x with _ => _ end] => destruct x eqn:?
      end ];
  try congruence; auto.

Section Facts.

Variable generateId : nat -> string.
Variable Date_now : nat -> N.
Variable decodeAudioData : string -> option N.

#[local] Abbreviation toolCalls := (toolCalls generateId Date_now).
#[local] Abbreviation dispatch := (dispatch generateId Date_now).

Lemma sameSchedule_refl s : sameSchedule s s.
Proof. by split. Qed.


Lemma toolsFrame_refl s : toolsFrame s s.
Proof. by destruct s. Qed.

Lemma toolsFrame_trans s1 s2 s3 :
  toolsFrame s1 s2 -> toolsFrame s2 s3 -> toolsFrame s1 s3.
Proof. unfold toolsFrame. intros H12 H23. rewrite H23 at 1. by rewrite H12. Qed.

Lemma toolsFrame_schedule s s' : toolsFrame s s' -> sameSchedule s s'.
Proof. intros ->. by split. Qed.

Lemma dispatch_frame fc s s' r :
  dispatch fc s = Some (s', r) -> toolsFrame s s'.
Proof.
  unfold App.dispatch, addTask. intros H.
  repeat match type of H with
         | context [if ?b then _ else _] => destruct b
         | context [match ?x with _ => _ end] => destruct x
         end;
    try discriminate; injection H as <- _; by destruct s.
Qed.

Lemma respond_frame fc r s : toolsFrame s (respond fc r s).
Proof. by destruct s. Qed.

Lemma toolCalls_frame calls s : toolsFrame s (toolCalls calls s).1.
Proof.
  revert s; induction calls as [|fc rest IH]; intros s; simpl.
  - apply toolsFrame_refl.
  - destruct (dispatch fc s) as [[s' r]|] eqn:E; simpl.
    + eapply toolsFrame_trans; [eapply dispatch_frame, E|].
      eapply toolsFrame_trans; [apply respond_frame | apply IH].
    + apply toolsFrame_refl.
Qed.

Lemma connectVoice_schedule w s : sameSchedule s (connectVoice w s).
Proof.
  unfold sameSchedule, connectVoice, openSession, handleSetKey. fields.
Qed.

Lemma disconnectVoice_schedule s : sameSchedule s (disconnectVoice s).
Proof. by split. Qed.

Lemma onended_schedule h s : sameSchedule s (onended h s).
Proof. unfold sameSchedule, onended. fields. Qed.

End Facts.

End Frame.

(** ** The playback scheduler *)

Module Scheduler.

Import JsString App Frame.

Local Open Scope list_scope.

Section Facts.

Variable generateId : nat -> string.
Variable Date_now : nat -> N.
Variable decodeAudioData : string -> option N.

#[local] Abbreviation step := (step generateId Date_now decodeAudioData).
#[local] Abbreviation run := (run generateId Date_now decodeAudioData).
#[local] Abbreviation onmessage :=
  (onmessage generateId Date_now decodeAudioData).
#[local] Abbreviation toolCalls := (toolCalls generateId Date_now).
#[local] Abbreviation handleAudio := (handleAudio decodeAudioData).
#[local] Abbreviation decodes := (decodes decodeAudioData).

#[local] Abbreviation afterTools := (afterTools generateId Date_now).

Lemma afterTools_frame msg s1 : toolsFrame s1 (afterTools msg s1).
Proof.
  unfold App.afterTools. destruct (toolCall msg);
    [apply toolCalls_frame | apply toolsFrame_refl].
Qed.

Lemma onmessage_unfold msg s :
  (onmessage msg s).1 =
  afterTools msg
    (if interrupted msg then interrupt (handleAudio msg s)
     else handleAudio msg s).
Proof. reflexivity. Qed.



Lemma run_cons s ev evs : run s (ev :: evs) = run (step s ev) evs.
Proof. reflexivity. Qed.






Lemma handleAudio_context msg s :
  audioContextRef (handleAudio msg s) = audioContextRef s.
Proof. unfold App.handleAudio. fields. Qed.

Lemma handleAudio_cursor msg s :
  (nextStartTimeRef s <= nextStartTimeRef (handleAudio msg s))%N.
Proof. unfold App.handleAudio. fields; lia. Qed.

Lemma handleAudio_aligned msg s data now :
  audioData msg = Some data -> truthy data = true ->
  audioContextRef s = Some now ->
  (now <= nextStartTimeRef (handleAudio msg s))%N.
Proof.
  intros Hd Ht Hc. unfold App.handleAudio. rewrite Hd, Hc, Ht.
  destruct (decodeAudioData data); simpl; lia.
Qed.

Lemma handleAudio_sources msg s :
  audioSourcesRef s ⊆ audioSourcesRef (handleAudio msg s).
Proof. unfold App.handleAudio. fields; set_solver. Qed.

Lemma handleAudio_stopped msg s :
  stopped (handleAudio msg s) = stopped s.
Proof. unfold App.handleAudio. fields. Qed.

Lemma step_cursor s ev :
  interrupts ev = false ->
  (nextStartTimeRef s <= nextStartTimeRef (step s ev))%N.
Proof.
  intros Hint. destruct ev as [|dt|w| |msg| | |h]; simpl; try done.
  - unfold toggleVoice.
    destruct (isVoiceActive s || isVoiceConnecting s).
    + by destruct (disconnectVoice_schedule s) as [-> _].
    + by destruct (connectVoice_schedule w s) as [-> _].
  - simpl in Hint. rewrite onmessage_unfold, Hint.
    destruct (toolsFrame_schedule _ _
                (afterTools_frame msg (handleAudio msg s))) as [-> _].
    apply handleAudio_cursor.
  - by destruct (onended_schedule h s) as [-> _].
Qed.

Lemma speakingAgrees_fields s s' :
  isBotSpeaking s' = isBotSpeaking s ->
  audioSourcesRef s' = audioSourcesRef s ->
  speakingAgrees s -> speakingAgrees s'.
Proof. unfold speakingAgrees. by intros -> ->. Qed.

Lemma speakingAgrees_flushed s :
  isBotSpeaking s = false -> audioSourcesRef s = ∅ -> speakingAgrees s.
Proof. unfold speakingAgrees. intros -> ->. split; [discriminate | done]. Qed.

Lemma connectVoice_speaking w s :
  isBotSpeaking (connectVoice w s) = isBotSpeaking s /\
  audioSourcesRef (connectVoice w s) = audioSourcesRef s.
Proof. unfold connectVoice, openSession, handleSetKey. fields. Qed.

Lemma handleAudio_speakingAgrees msg s :
  decodes (SessionMessage msg) ->
  speakingAgrees s -> speakingAgrees (handleAudio msg s).
Proof.
  intros Hdec Hs. unfold App.handleAudio.
  destruct (audioData msg) as [data|] eqn:Ed; [|done].
  destruct (audioContextRef s) as [now|]; [|done].
  destruct (truthy data); [|done].
  destruct (Hdec data Ed) as [dur ->].
  unfold speakingAgrees. simpl. split; [intros _ | done].
  intros Hempty. apply (not_elem_of_empty (C := gset handle) (length (started s))).
  rewrite <- Hempty. apply elem_of_union_l. by apply elem_of_singleton.
Qed.

Lemma onended_speakingAgrees h s :
  speakingAgrees s -> speakingAgrees (onended h s).
Proof.
  unfold speakingAgrees, onended. intros Hs. simpl.
  case_bool_decide as Hsize; simpl.
  - apply size_empty_inv in Hsize. apply leibniz_equiv in Hsize.
    rewrite Hsize. split; [discriminate | done].
  - rewrite Hs. split; [intros _ Hempty; apply Hsize; by rewrite Hempty|].
    intros Hne Hempty. apply Hne. rewrite Hempty.
    apply leibniz_equiv, difference_disjoint, disjoint_empty_l.
Qed.

(** As long as payloads decode, every event keeps the speaking indicator
    in step with [audioSourcesRef]. *)
Lemma step_speakingAgrees s ev :
  decodes ev -> speakingAgrees s -> speakingAgrees (step s ev).
Proof.
  intros Hdec Hs. destruct ev as [|dt|w| |msg| | |h]; simpl.
  - exact Hs.
  - exact Hs.
  - unfold toggleVoice. destruct (isVoiceActive s || isVoiceConnecting s).
    + apply speakingAgrees_flushed; reflexivity.
    + destruct (connectVoice_speaking w s) as [H1 H2].
      by apply (speakingAgrees_fields s).
  - exact Hs.
  - rewrite onmessage_unfold.
    set (s1 := if interrupted msg then interrupt (handleAudio msg s)
               else handleAudio msg s).
    assert (Hs1 : speakingAgrees s1).
    { subst s1. destruct (interrupted msg).
      - apply speakingAgrees_flushed; reflexivity.
      - by apply handleAudio_speakingAgrees. }
    pose proof (afterTools_frame msg s1) as Hf.
    apply (speakingAgrees_fields s1); [by rewrite Hf | by rewrite Hf | done].
  - apply speakingAgrees_flushed; reflexivity.
  - apply speakingAgrees_flushed; reflexivity.
  - by apply onended_speakingAgrees.
Qed.

Lemma run_speakingAgrees evs : forall s,
  Forall decodes evs -> speakingAgrees s -> speakingAgrees (run s evs).
Proof.
  induction evs as [|ev evs IH]; intros s Hall Hs; [exact Hs|].
  apply Forall_cons in Hall as [Hdec Hall].
  rewrite run_cons. apply IH; [exact Hall|]. by apply step_speakingAgrees.
Qed.

(** C2.  The interruption branch stops every source of [audioSourcesRef],
    empties the set, puts the cursor back to 0 and clears the speaking
    indicator, whatever the state before; so does a whole message that
    carries the interruption flag, the fragment of that same message
    included. *)
Theorem interrupt_flushes s :
  (audioSourcesRef s ⊆ stopped (interrupt s) /\
   audioSourcesRef (interrupt s) = ∅ /\
   nextStartTimeRef (interrupt s) = 0%N /\
   isBotSpeaking (interrupt s) = false) /\
  (forall data calls,
     let msg := {| audioData := data; interrupted := true;
                   toolCall := calls |} in
     let s' := (onmessage msg s).1 in
     audioSourcesRef s ⊆ stopped s' /\
     audioSourcesRef s' = ∅ /\
     nextStartTimeRef s' = 0%N /\
     isBotSpeaking s' = false).
Proof.
  split.
  - repeat split; simpl. apply union_subseteq_l.
  - intros data calls msg s'. subst s'. rewrite onmessage_unfold.
    change (interrupted msg) with true. cbv iota.
    rewrite (afterTools_frame msg (interrupt (handleAudio msg s))). simpl.
    repeat split. etrans; [apply (handleAudio_sources msg s)|].
    apply union_subseteq_l.
Qed.

(** C3 (as amended).  No event other than an interruption lowers the
    cursor.  Once a message that carries a fragment and no interruption
    flag has been handled, the cursor is not behind the output clock.  A
    message with the interruption flag leaves the cursor at 0, whether
    or not it carries a fragment. *)
Theorem cursor_monotone_and_aligned_on_schedule s ev :
  (interrupts ev = false ->
   (nextStartTimeRef s <= nextStartTimeRef (step s ev))%N) /\
  (forall msg data,
     ev = SessionMessage msg -> interrupted msg = false ->
     audioData msg = Some data -> truthy data = true ->
     cursorAhead (step s ev)) /\
  (forall msg,
     ev = SessionMessage msg -> interrupted msg = true ->
     nextStartTimeRef (step s ev) = 0%N).
Proof.
  split; [apply step_cursor|]. split.
  - intros msg data -> Hint Hd Ht now. simpl.
    rewrite onmessage_unfold, Hint.
    rewrite (afterTools_frame msg (handleAudio msg s)). simpl.
    rewrite handleAudio_context. intros Hc.
    eapply handleAudio_aligned; eauto.
  - intros msg -> Hint. simpl. rewrite onmessage_unfold, Hint.
    by destruct (toolsFrame_schedule _ _
                   (afterTools_frame msg (interrupt (handleAudio msg s))))
      as [-> _].
Qed.

(** C6 (as amended).  When the payload of a message does not decode, the
    handler returns normally, writes one line to the console and raises
    the cursor to the clock reading if it was behind; no source is
    started or added to [audioSourcesRef], the session refs and flags
    and the tasks are as before.  Nothing is said of the speaking
    indicator. *)
Theorem decode_failure_is_isolated s msg data now :
  audioData msg = Some data -> truthy data = true ->
  audioContextRef s = Some now -> decodeAudioData data = None ->
  interrupted msg = false -> toolCall msg = None ->
  let s' := (onmessage msg s).1 in
  (onmessage msg s).2 = Returned /\
  (forall b,
     set_isBotSpeaking b s' =
     set_isBotSpeaking b
       (set_errors (errors s ++ ["Audio Decode Error"])
          (alignCursor now s))) /\
  started s' = started s /\
  audioSourcesRef s' = audioSourcesRef s /\
  liveSessionRef s' = liveSessionRef s /\
  isVoiceActive s' = isVoiceActive s /\
  voiceError s' = voiceError s /\
  nextStartTimeRef s' = N.max (nextStartTimeRef s) now.
Proof.
  intros Hd Ht Hc Hdec Hint Htool s'. subst s'.
  unfold App.onmessage, App.handleAudio.
  rewrite Hd, Hc, Ht, Hdec, Hint, Htool. simpl. by repeat split.
Qed.

End Facts.



Lemma reachable_run generateId Date_now decodeAudioData s evs :
  reachable generateId Date_now decodeAudioData s ->
  reachable generateId Date_now decodeAudioData
    (run generateId Date_now decodeAudioData s evs).
Proof.
  intros [evs0 ->]. exists (evs0 ++ evs). unfold run. by rewrite foldl_app.
Qed.

Lemma opened_reachable :
  reachable Sample.generateId Sample.Date_now Sample.decodeAudioData
    Sample.opened.
Proof. exists [VoiceButton Sample.browser; SessionOpened]. reflexivity. Qed.

(** C2 while two fragments are scheduled: the interruption message stops
    both, empties the set, resets the cursor and clears the indicator. *)
Lemma interrupt_flushes_witness :
  let s := Sample.run Sample.opened Sample.twoFragments in
  let s' := (Sample.onmessage Sample.interruption s).1 in
  size (audioSourcesRef s) = 2%nat /\
  audioSourcesRef s ⊆ stopped s' /\
  audioSourcesRef s' = ∅ /\
  nextStartTimeRef s' = 0%N /\
  isBotSpeaking s' = false.
Proof.
  intros s s'. split; [by vm_compute|].
  exact (proj2 (interrupt_flushes Sample.generateId Sample.Date_now
                  Sample.decodeAudioData s) None None).
Defined.

(** C3 as stated fails: on an open session that has been silent for five
    ticks the cursor is behind the clock. *)
Lemma cursor_behind_clock_when_idle :
  reachable Sample.generateId Sample.Date_now Sample.decodeAudioData
    Sample.idle /\
  ~ cursorAhead Sample.idle.
Proof.
  split.
  - apply reachable_run, opened_reachable.
  - intros H. specialize (H 5%N eq_refl). vm_compute in H. by apply H.
Qed.

(** C3 at the first sample fragment, and at the same fragment with the
    interruption flag. *)
Lemma cursor_monotone_and_aligned_on_schedule_witness :
  ((nextStartTimeRef Sample.idle <=
    nextStartTimeRef
      (Sample.run Sample.idle [SessionMessage (Sample.audio "ab")]))%N /\
   cursorAhead
     (Sample.run Sample.idle [SessionMessage (Sample.audio "ab")])) /\
  nextStartTimeRef
    (Sample.run Sample.idle [SessionMessage Scenario.flaggedFragment]) = 0%N.
Proof.
  pose proof (cursor_monotone_and_aligned_on_schedule
                Sample.generateId Sample.Date_now Sample.decodeAudioData
                Sample.idle (SessionMessage (Sample.audio "ab")))
    as (Hmono & Hahead & _).
  pose proof (cursor_monotone_and_aligned_on_schedule
                Sample.generateId Sample.Date_now Sample.decodeAudioData
                Sample.idle (SessionMessage Scenario.flaggedFragment))
    as (_ & _ & Hreset).
  exact (conj
           (conj (Hmono eq_refl)
                 (Hahead (Sample.audio "ab") "ab"
                    eq_refl eq_refl eq_refl eq_refl))
           (Hreset Scenario.flaggedFragment eq_refl eq_refl)).
Defined.

(** C4 at the failing input: after a payload that does not decode the
    indicator says speaking while no source is active. *)
Theorem speaking_without_active_source :
  reachable Sample.generateId Sample.Date_now Sample.decodeAudioData
    Sample.decodeFailed /\
  isBotSpeaking Sample.decodeFailed = true /\
  audioSourcesRef Sample.decodeFailed = ∅ /\
  ~ speakingAgrees Sample.decodeFailed.
Proof.
  split; [|split; [|split]].
  - apply reachable_run, opened_reachable.
  - by vm_compute.
  - by vm_compute.
  - intros [H _]. apply H; by vm_compute.
Qed.

(** C5 at the failing input: teardown while a fragment of two ticks is
    scheduled empties [audioSourcesRef] and clears the indicator as the
    interruption does, but leaves the cursor at 2 where the interruption
    puts it back to 0; the first fragment of the next session is then
    started at 2 on a clock that reads 0. *)
Theorem teardown_keeps_cursor :
  audioSourcesRef (disconnectVoice Sample.playing) = ∅ /\
  isBotSpeaking (disconnectVoice Sample.playing) = false /\
  nextStartTimeRef (disconnectVoice Sample.playing) = 2%N /\
  nextStartTimeRef (interrupt Sample.playing) = 0%N /\
  last (started Sample.reconnected) =
    Some {| when := 2; duration := 3; calledAt := 0 |}.
Proof. repeat split; by vm_compute. Qed.

(** C6 at a payload that does not decode, five ticks into the session. *)
Lemma decode_failure_is_isolated_witness :
  let s' := (Sample.onmessage (Sample.audio "!") Sample.idle).1 in
  started s' = started Sample.idle /\
  audioSourcesRef s' = audioSourcesRef Sample.idle /\
  liveSessionRef s' = liveSessionRef Sample.idle /\
  isVoiceActive s' = isVoiceActive Sample.idle /\
  nextStartTimeRef s' = 5%N.
Proof.
  destruct (decode_failure_is_isolated
              Sample.generateId Sample.Date_now Sample.decodeAudioData
              Sample.idle (Sample.audio "!") "!" 5%N
              eq_refl eq_refl eq_refl eq_refl eq_refl eq_refl)
    as (_ & _ & H1 & H2 & H3 & H4 & _ & H5).
  exact (conj H1 (conj H2 (conj H3 (conj H4 H5)))).
Defined.

(** C6 as stated fails: the message whose payload does not decode also
    turns the speaking indicator on and moves the cursor from 0 to 5. *)
Lemma decode_failure_changes_state :
  let s' := (Sample.onmessage (Sample.audio "!") Sample.idle).1 in
  ~ onlyLogged Sample.idle s' /\
  isBotSpeaking Sample.idle = false /\ isBotSpeaking s' = true /\
  nextStartTimeRef Sample.idle = 0%N /\ nextStartTimeRef s' = 5%N.
Proof.
  split; [|repeat split; by vm_compute].
  unfold onlyLogged. intros H.
  apply (f_equal isBotSpeaking) in H. vm_compute in H. discriminate H.
Qed.

End Scheduler.

(** ** The tool bridge *)

Module ToolBridge.

Import JsString JsStringFacts App Frame.

Local Open Scope list_scope.

Section Facts.

Variable generateId : nat -> string.
Variable Date_now : nat -> N.

#[local] Abbreviation toolCalls := (toolCalls generateId Date_now).
#[local] Abbreviation dispatch := (dispatch generateId Date_now).
#[local] Abbreviation addTask := (addTask generateId Date_now).

Lemma unknown_name name :
  name ∉ knownTools ->
  String.eqb name "addTask" = false /\
  String.eqb name "removeTask" = false /\
  String.eqb name "getTasks" = false /\
  String.eqb name "clearAllTasks" = false.
Proof.
  intros Hn. repeat split; apply String.eqb_neq; intros ->; apply Hn;
    unfold knownTools; set_solver.
Qed.

Lemma dispatch_unknown fc s :
  call_name fc ∉ knownTools -> dispatch fc s = Some (s, "ok").
Proof.
  intros Hn. destruct (unknown_name _ Hn) as (H1 & H2 & H3 & H4).
  unfold App.dispatch. by rewrite H1, H2, H3, H4.
Qed.

Lemma dispatch_sent fc s s' r :
  dispatch fc s = Some (s', r) -> sent s' = sent s.
Proof.
  unfold App.dispatch, App.addTask. intros H.
  repeat match type of H with
         | context [if ?b then _ else _] => destruct b
         | context [match ?x with _ => _ end] => destruct x
         end;
    try discriminate; by injection H as <- _.
Qed.

Lemma dispatch_returns fc s :
  hasArguments fc -> is_Some (dispatch fc s).
Proof.
  unfold hasArguments, takesText, App.dispatch. intros Harg.
  destruct (String.eqb (call_name fc) "addTask").
  - destruct (Harg eq_refl) as [t ->]. by eexists.
  - destruct (String.eqb (call_name fc) "removeTask").
    + destruct (Harg eq_refl) as [t ->].
      destruct (find (matchesText t) (tasksRef s)); by eexists.
    + repeat match goal with
             | |- context [if ?b then _ else _] => destruct b
             end; by eexists.
Qed.

Lemma toolCalls_app pre post s :
  toolCalls (pre ++ post) s =
  match (toolCalls pre s).2 with
  | Returned => toolCalls post (toolCalls pre s).1
  | Threw => toolCalls pre s
  end.
Proof.
  revert s; induction pre as [|fc pre IH]; intros s; simpl; [done|].
  destruct (dispatch fc s) as [[s1 r]|]; simpl; [apply IH | done].
Qed.

Lemma toolCalls_returns calls : forall s,
  Forall hasArguments calls -> (toolCalls calls s).2 = Returned.
Proof.
  induction calls as [|fc rest IH]; intros s Hall; simpl; [done|].
  apply Forall_cons in Hall as [Harg Hall].
  destruct (dispatch_returns fc s Harg) as [[s1 r] ->].
  by apply IH.
Qed.

(** Whatever the batch, the responses it adds answer its first [n]
    entries, in order, for some [n]. *)
Lemma toolCalls_responses calls : forall s,
  exists rest n,
    sent (toolCalls calls s).1 = sent s ++ rest /\
    map resp_id rest = take n (map call_id calls) /\
    map resp_name rest = take n (map call_name calls).
Proof.
  induction calls as [|fc calls IH]; intros s; simpl.
  - exists [], 0%nat. by rewrite app_nil_r.
  - destruct (dispatch fc s) as [[s1 r]|] eqn:Hd; simpl.
    + destruct (IH (respond fc r s1)) as (rest & n & Hs & Hi & Hn).
      exists ({| resp_id := call_id fc; resp_name := call_name fc;
                 resp_result := r |} :: rest), (S n).
      rewrite Hs. simpl. rewrite (dispatch_sent _ _ _ _ Hd), <- app_assoc.
      split; [done|]. by rewrite Hi, Hn.
    + exists [], 0%nat. by rewrite app_nil_r.
Qed.

(** A batch in which every entry carries the [text] its operation reads
    returns normally and is answered entry by entry. *)
Lemma batch_with_arguments calls s :
  Forall hasArguments calls ->
  exists new,
    (toolCalls calls s).2 = Returned /\
    sent (toolCalls calls s).1 = sent s ++ new /\
    map resp_id new = map call_id calls /\
    map resp_name new = map call_name calls /\
    (forall i fc r,
       calls !! i = Some fc -> new !! i = Some r ->
       call_name fc ∉ knownTools ->
       resp_result r = "ok" /\
       forall s0, dispatch fc s0 = Some (s0, "ok")).
Proof.
  revert s; induction calls as [|fc rest IH]; intros s Hall.
  - exists []. simpl. rewrite app_nil_r. repeat split; try done.
  - apply Forall_cons in Hall as [Harg Hall]. simpl.
    destruct (dispatch_returns fc s Harg) as [[s1 r1] Hd]. rewrite Hd.
    destruct (IH (respond fc r1 s1) Hall) as (new & Hret & Hsent & Hid & Hnm & Hok).
    exists ({| resp_id := call_id fc; resp_name := call_name fc;
               resp_result := r1 |} :: new).
    split; [exact Hret|]. split.
    { rewrite Hsent. simpl. rewrite (dispatch_sent _ _ _ _ Hd).
      by rewrite <- app_assoc. }
    split; [simpl; by rewrite Hid|]. split; [simpl; by rewrite Hnm|].
    intros i fc' r Hfc Hr Hn. destruct i as [|i]; simpl in Hfc, Hr.
    + injection Hfc as <-. injection Hr as <-. simpl.
      rewrite (dispatch_unknown fc s Hn) in Hd. injection Hd as _ <-.
      split; [done | intros s0; by apply dispatch_unknown].
    + destruct (Hok i fc' r Hfc Hr Hn) as [Hres _].
      split; [exact Hres | intros s0; by apply dispatch_unknown].
Qed.

(** C7 (as amended).  Take the entries of one message up to any point
    ([pre]) such that each of them carries the [text] argument when its
    operation is [addTask] or [removeTask], whatever follows them in the
    message ([post]).  The loop handles them without a throw and sends
    exactly one response for each of them, in order, each with the
    identifier and the name of its entry; every further response of the
    message answers an entry of [post].  An entry of [pre] whose name is
    none of the four operations changes nothing and is answered with the
    result ["ok"]. *)
Theorem every_entry_is_answered pre post s :
  Forall hasArguments pre ->
  exists new rest n,
    (toolCalls pre s).2 = Returned /\
    sent (toolCalls pre s).1 = sent s ++ new /\
    sent (toolCalls (pre ++ post) s).1 = sent s ++ new ++ rest /\
    map resp_id new = map call_id pre /\
    map resp_name new = map call_name pre /\
    map resp_id rest = take n (map call_id post) /\
    map resp_name rest = take n (map call_name post) /\
    (forall i fc r,
       pre !! i = Some fc -> new !! i = Some r ->
       call_name fc ∉ knownTools ->
       resp_result r = "ok" /\
       forall s0, dispatch fc s0 = Some (s0, "ok")).
Proof.
  intros Hall.
  destruct (batch_with_arguments pre s Hall)
    as (new & Hret & Hsent & Hid & Hnm & Hok).
  destruct (toolCalls_responses post (toolCalls pre s).1)
    as (rest & n & Hs & Hi & Hn).
  exists new, rest, n.
  split; [exact Hret|]. split; [exact Hsent|]. split.
  { rewrite toolCalls_app, Hret, Hs, Hsent. by rewrite <- app_assoc. }
  split; [exact Hid|]. split; [exact Hnm|].
  split; [exact Hi|]. split; [exact Hn | exact Hok].
Qed.

Lemma matchesText_spec t u :
  matchesText t u = true <-> containsIgnoringCase (text u) t.
Proof. apply includes_spec. Qed.

Lemma find_first {A} (p : A -> bool) before x after :
  Forall (fun u => p u = false) before -> p x = true ->
  find p (before ++ x :: after) = Some x.
Proof.
  intros Hb Hx. induction Hb as [|u before Hu _ IH]; simpl.
  - by rewrite Hx.
  - by rewrite Hu.
Qed.

Lemma find_none {A} (p : A -> bool) l :
  Forall (fun u => p u = false) l -> find p l = None.
Proof.
  intros Hl. induction Hl as [|u l Hu _ IH]; simpl; [done|]. by rewrite Hu.
Qed.

Lemma filter_other_ids (i : string) (l : list Task) :
  i ∉ map id l -> filter (fun u => id u <> i) l = l.
Proof.
  induction l as [|u l IH]; intros Hi; [done|].
  simpl in Hi. apply not_elem_of_cons in Hi as [Hne Hi].
  rewrite filter_cons_True by (intros Heq; by apply Hne).
  f_equal. by apply IH.
Qed.

Lemma delete_unique before (x : Task) after :
  NoDup (map id (before ++ x :: after)) ->
  filter (fun u => id u <> id x) (before ++ x :: after) = before ++ after.
Proof.
  rewrite map_app. simpl. intros Hnd.
  apply NoDup_app in Hnd as (Hb & Hdisj & Ha).
  apply NoDup_cons in Ha as [Hx Ha].
  rewrite filter_app, filter_cons_False by (intros H; by apply H).
  rewrite !filter_other_ids; [done | exact Hx |].
  intros Hin. apply (Hdisj _ Hin), elem_of_cons. by left.
Qed.

Lemma no_match (t : string) (l : list Task) :
  Forall (fun u => ~ containsIgnoringCase (text u) t) l ->
  Forall (fun u => matchesText t u = false) l.
Proof.
  intros Hl. eapply Forall_impl; [exact Hl|]. intros u Hu. simpl.
  destruct (matchesText t u) eqn:E; [|done].
  by apply matchesText_spec in E.
Qed.

(** [removeTask] with argument [t] looks for the first task of the
    mirror [tasksRef] whose text contains [t] when letter case is
    ignored.  When there is one, the tasks with its identifier are
    deleted from the current list and the response names its text; when
    the mirror is the current list and the identifiers are distinct,
    that task alone is deleted.  When there is none, nothing is deleted
    and the response says so. *)
Lemma removeTask_searches_the_mirror s fc t :
  call_name fc = "removeTask" -> call_text fc = Some t ->
  (forall before task after,
     tasksRef s = before ++ task :: after ->
     Forall (fun u => ~ containsIgnoringCase (text u) t) before ->
     containsIgnoringCase (text task) t ->
     toolCalls [fc] s =
       (respond fc ("Removed task: " ++ text task)%string
          (deleteTask (id task) s), Returned) /\
     sent (toolCalls [fc] s).1 =
       sent s ++ [{| resp_id := call_id fc; resp_name := call_name fc;
                     resp_result := ("Removed task: " ++ text task)%string |}] /\
     (tasks s = tasksRef s -> NoDup (map id (tasks s)) ->
      tasks (toolCalls [fc] s).1 = before ++ after)) /\
  (Forall (fun u => ~ containsIgnoringCase (text u) t) (tasksRef s) ->
   tasks (toolCalls [fc] s).1 = tasks s /\
   sent (toolCalls [fc] s).1 =
     sent s ++ [{| resp_id := call_id fc; resp_name := call_name fc;
                   resp_result :=
                     ("Could not find task matching " ++ t)%string |}]).
Proof.
  intros Hname Htext. split.
  - intros before task after Hsplit Hbefore Htask.
    assert (Hrun : toolCalls [fc] s =
              (respond fc ("Removed task: " ++ text task)%string
                 (deleteTask (id task) s), Returned)).
    { simpl. unfold App.dispatch. rewrite Hname, Htext. simpl.
      rewrite Hsplit.
      by rewrite (find_first _ before task after (no_match _ _ Hbefore))
        by (by apply matchesText_spec). }
    split; [exact Hrun|]. rewrite Hrun. split; [reflexivity|].
    intros Hsync Hnd. simpl. rewrite Hsync, Hsplit in Hnd |- *.
    by apply delete_unique.
  - intros Hnone. simpl. unfold App.dispatch. rewrite Hname, Htext. simpl.
    rewrite (find_none _ _ (no_match _ _ Hnone)). simpl. by rewrite ?Hname.
Qed.

(** C10.  [addTask] through the tool bridge with a text that is empty or
    all white space leaves the task list as it is and still answers
    ["Added task: "] followed by the text; with any other text one task
    with that text, not completed, is put at the head of the list. *)
Theorem addTask_skips_blank_text s fc t :
  call_name fc = "addTask" -> call_text fc = Some t ->
  (blank t = true ->
   toolCalls [fc] s =
     (respond fc ("Added task: " ++ t)%string s, Returned) /\
   tasks (toolCalls [fc] s).1 = tasks s) /\
  (blank t = false ->
   exists task,
     text task = t /\ completed task = false /\
     tasks (toolCalls [fc] s).1 = task :: tasks s /\
     (toolCalls [fc] s).2 = Returned /\
     sent (toolCalls [fc] s).1 =
       sent s ++ [{| resp_id := call_id fc; resp_name := call_name fc;
                     resp_result := ("Added task: " ++ t)%string |}]).
Proof.
  intros Hname Htext.
  split; intros Hb; simpl; unfold App.dispatch, App.addTask;
    rewrite Hname, Htext; simpl; rewrite trim_falsy, Hb.
  - by split.
  - exists {| id := generateId (idCalls s); text := t; completed := false;
              createdAt := Date_now (idCalls s) |}.
    simpl. rewrite ?Hname. by repeat split.
Qed.

End Facts.

(** C8 at the failing input.  The session is open and the rendered list
    is ["Buy milk and eggs"; "Walk the dog"].  One message asks for
    [addTask "Buy bread"] and then [removeTask "bread"]: the task has
    been added when [removeTask] runs, yet the search reads the mirror
    of the last render, answers that nothing matches and deletes
    nothing.  Another message asks for [removeTask "MILK"] twice: both
    entries find the same task in the mirror and both answers report its
    removal. *)
Theorem removeTask_reads_the_stale_mirror :
  let added :=
    Sample.run Sample.groceries
      [SessionMessage
         (Scenario.toolMessage [Scenario.addBread; Scenario.removeBread])] in
  let twice :=
    Sample.run Sample.groceries
      [SessionMessage
         (Scenario.toolMessage [Scenario.removeMilk; Scenario.removeMilk])] in
  reachable Sample.generateId Sample.Date_now Sample.decodeAudioData
    Sample.groceries /\
  tasksRef Sample.groceries = tasks Sample.groceries /\
  map text (tasks Sample.groceries) =
    ["Buy milk and eggs"; "Walk the dog"] /\
  map text (tasks added) =
    ["Buy bread"; "Buy milk and eggs"; "Walk the dog"] /\
  containsIgnoringCase "Buy bread" "bread" /\
  last (sent added) =
    Some {| resp_id := "call-8"; resp_name := "removeTask";
            resp_result := "Could not find task matching bread" |} /\
  map text (tasks twice) = ["Walk the dog"] /\
  drop (length (sent Sample.groceries)) (sent twice) =
    [{| resp_id := "call-6"; resp_name := "removeTask";
        resp_result := "Removed task: Buy milk and eggs" |};
     {| resp_id := "call-6"; resp_name := "removeTask";
        resp_result := "Removed task: Buy milk and eggs" |}].
Proof.
  intros added twice. subst added twice.
  split; [apply Scheduler.reachable_run, Scheduler.opened_reachable|].
  split; [by vm_compute|]. split; [by vm_compute|].
  split; [by vm_compute|].
  split; [by exists "buy ", EmptyString|].
  split; [by vm_compute|]. split; by vm_compute.
Qed.

(** C10 at a text of two spaces and at a proper text. *)
Lemma addTask_skips_blank_text_witness :
  tasks (Sample.toolCalls [Sample.call "addTask" (Some "  ")]
           Sample.groceries).1 = tasks Sample.groceries /\
  exists task,
    text task = "Call mum" /\ completed task = false /\
    tasks (Sample.toolCalls [Sample.call "addTask" (Some "Call mum")]
             Sample.groceries).1 = task :: tasks Sample.groceries.
Proof.
  split.
  - exact (proj2 (proj1 (addTask_skips_blank_text
                           Sample.generateId Sample.Date_now Sample.groceries
                           (Sample.call "addTask" (Some "  ")) "  "
                           eq_refl eq_refl) eq_refl)).
  - destruct (proj2 (addTask_skips_blank_text
                       Sample.generateId Sample.Date_now Sample.groceries
                       (Sample.call "addTask" (Some "Call mum")) "Call mum"
                       eq_refl eq_refl) eq_refl)
      as (task & Ht & Hc & Hl & _).
    by exists task.
Defined.

(** C7 at a message of four entries: [getTasks] and an unknown operation,
    then an [addTask] without text and [clearAllTasks]. *)
Lemma every_entry_is_answered_witness :
  let pre := [Scenario.getTasksCall; Scenario.flyCall] in
  let post := [Scenario.brokenCall; Scenario.clearCall] in
  let toolCalls := App.toolCalls Sample.generateId Sample.Date_now in
  exists new rest n,
    (toolCalls pre Scenario.listed).2 = Returned /\
    sent (toolCalls pre Scenario.listed).1 = sent Scenario.listed ++ new /\
    sent (toolCalls (pre ++ post) Scenario.listed).1 =
      sent Scenario.listed ++ new ++ rest /\
    map resp_id new = map call_id pre /\
    map resp_name new = map call_name pre /\
    map resp_id rest = take n (map call_id post) /\
    map resp_name rest = take n (map call_name post) /\
    (forall i fc r,
       pre !! i = Some fc -> new !! i = Some r ->
       call_name fc ∉ knownTools ->
       resp_result r = "ok" /\
       forall s0,
         dispatch Sample.generateId Sample.Date_now fc s0 = Some (s0, "ok")).
Proof.
  apply (every_entry_is_answered Sample.generateId Sample.Date_now
           [Scenario.getTasksCall; Scenario.flyCall]
           [Scenario.brokenCall; Scenario.clearCall] Scenario.listed).
  repeat constructor; intros H; discriminate H.
Defined.

(** C7 as stated fails: an [addTask] entry without its [text] argument
    makes the handler throw before any response is sent. *)
Lemma entry_without_text_is_not_answered :
  (Sample.toolCalls [Sample.call "addTask" None] Sample.opened).2 = Threw /\
  ~ answered Sample.generateId Sample.Date_now
      (Sample.call "addTask" None) Sample.opened.
Proof.
  split; [reflexivity|].
  intros [result H]. vm_compute in H. discriminate H.
Qed.

End ToolBridge.

(** ** Credential resolution *)

Module Credentials.

Import JsString App Credential Frame.

Local Open Scope list_scope.




End Credentials.

(** ** Numbers read back from their digits *)

Module JsNumberFacts.

Import JsNumber.

Lemma readDecimal_digits n : readDecimal (digits n) = Some n.
Proof.
  unfold readDecimal, digits. rewrite NilZero.usu.
  - simpl. by rewrite DecimalN.Unsigned.of_to.
  - destruct n as [|q]; [discriminate|]. apply Unsigned.to_uint_nonnil.
Qed.

Lemma seconds_field n :
  (n < 60)%N ->
  String.length (padStart 2 "0" (digits n)) = 2%nat /\
  readDecimal (padStart 2 "0" (digits n)) = Some n.
Proof.
  intros Hn.
  assert (Hall : forallb twoDigits (seq 0 60) = true) by (by vm_compute).
  rewrite forallb_forall in Hall.
  specialize (Hall (N.to_nat n)).
  unfold twoDigits in Hall. rewrite N2Nat.id in Hall.
  assert (Hin : In (N.to_nat n) (seq 0 60)) by (apply in_seq; lia).
  apply Hall in Hin. apply andb_true_iff in Hin as [Hlen Hread].
  split; [by apply Nat.eqb_eq|].
  destruct (readDecimal (padStart 2 "0" (digits n))) as [m|];
    [|discriminate]. apply N.eqb_eq in Hread. by rewrite Hread.
Qed.


Lemma toString_safe n :
  (n <= MAX_SAFE_INTEGER)%N -> toString n = Some (digits n).
Proof.
  intros Hn. unfold toString. by apply N.leb_le in Hn as ->.
Qed.

End JsNumberFacts.

(** ** Batches of tool calls *)

Module ToolBatch.

Import JsString JsStringFacts App Shape Frame ToolBridge.

Local Open Scope list_scope.

Section Facts.

Variable generateId : nat -> string.
Variable Date_now : nat -> N.
Variable decodeAudioData : string -> option N.

#[local] Abbreviation toolCalls := (toolCalls generateId Date_now).
#[local] Abbreviation dispatch := (dispatch generateId Date_now).
#[local] Abbreviation step := (step generateId Date_now decodeAudioData).
#[local] Abbreviation run := (run generateId Date_now decodeAudioData).

Lemma dispatch_counter fc s s' r :
  dispatch fc s = Some (s', r) -> (idCalls s <= idCalls s')%nat.
Proof.
  unfold App.dispatch, App.addTask. intros H.
  repeat match type of H with
         | context [if ?b then _ else _] => destruct b
         | context [match ?x with _ => _ end] => destruct x
         end;
    try discriminate; injection H as <- _; simpl; lia.
Qed.

Lemma toolCalls_sent calls : forall s,
  exists new,
    sent (toolCalls calls s).1 = sent s ++ new /\
    (length new <= length calls)%nat /\
    (idCalls s <= idCalls (toolCalls calls s).1)%nat.
Proof.
  induction calls as [|fc rest IH]; intros s; simpl.
  - exists []. rewrite app_nil_r. repeat split; simpl; lia.
  - destruct (dispatch fc s) as [[s1 r]|] eqn:E; simpl.
    + destruct (IH (respond fc r s1)) as (new & Hs & Hl & Hc).
      eexists (_ :: new). rewrite Hs. simpl.
      rewrite (dispatch_sent generateId Date_now _ _ _ _ E), <- app_assoc.
      split; [reflexivity|]. split; [simpl; lia|].
      pose proof (dispatch_counter _ _ _ _ E). simpl in Hc. lia.
    + exists []. rewrite app_nil_r. repeat split; simpl; lia.
Qed.

(** X1.  Whatever the batch, and whether or not one of its entries
    throws, the loop over the tool calls changes nothing but the task
    list, the count of identifiers drawn and the responses sent; the
    responses already sent stay, at most one is added per entry, and the
    mirror [tasksRef] is not refreshed. *)
Theorem tool_calls_touch_tasks_only calls s :
  let s' := (toolCalls calls s).1 in
  toolsFrame s s' /\
  tasksRef s' = tasksRef s /\
  (exists new, sent s' = sent s ++ new /\
               (length new <= length calls)%nat) /\
  (idCalls s <= idCalls s')%nat.
Proof.
  intros s'. subst s'.
  pose proof (toolCalls_frame generateId Date_now calls s) as Hf.
  destruct (toolCalls_sent calls s) as (new & Hs & Hl & Hc).
  split; [exact Hf|]. split; [by rewrite Hf|].
  split; [by exists new | exact Hc].
Qed.

Lemma dispatch_throws fc s :
  lacksText (tasksRef s) fc -> dispatch fc s = None.
Proof.
  intros [Ht [Hn | [Hn Hl]]]; unfold App.dispatch; rewrite Hn, Ht; simpl.
  - done.
  - by destruct (tasksRef s).
Qed.

(** X2.  An entry without the [text] its operation reads stops the
    batch: the entries before it are handled and answered as if they were
    the whole batch, it and the entries after it have no effect and get
    no response. *)
Theorem batch_stops_at_entry_without_text pre fc post s :
  Forall hasArguments pre -> lacksText (tasksRef s) fc ->
  toolCalls (pre ++ fc :: post) s = ((toolCalls pre s).1, Threw).
Proof.
  intros Hpre Hfc. rewrite toolCalls_app, (toolCalls_returns generateId Date_now pre s Hpre).
  simpl. rewrite dispatch_throws; [done|].
  by rewrite (toolCalls_frame generateId Date_now pre s).
Qed.

Lemma join_empty (l : list string) :
  join ", " l = EmptyString <-> l = [] \/ l = [EmptyString].
Proof.
  destruct l as [|x [|y l]]; simpl.
  - split; [by left | done].
  - split; [intros ->; by right | by intros [H | [= ->]]].
  - split; [|by intros [H | H]].
    destruct x; simpl; discriminate.
Qed.

(** X3.  [getTasks] changes nothing and reads the mirror [tasksRef]: it
    answers that the list is empty exactly when the mirror has no task,
    or a single task whose text is the empty string; otherwise it answers
    with the texts joined by a comma and a space, in list order. *)
Theorem getTasks_reads_the_mirror fc s :
  call_name fc = "getTasks" ->
  exists r,
    dispatch fc s = Some (s, r) /\
    (r = "Your list is empty." <->
     tasksRef s = [] \/ map text (tasksRef s) = [EmptyString]) /\
    (r <> "Your list is empty." ->
     r = ("Your list has: " ++ join ", " (map text (tasksRef s)))%string).
Proof.
  intros Hn. unfold App.dispatch. rewrite Hn. simpl.
  destruct (join ", " (map text (tasksRef s))) as [|c rest] eqn:E; simpl.
  - eexists. split; [reflexivity|]. split; [|done].
    split; [intros _|done].
    apply join_empty in E as [E | E]; [left | by right].
    by apply fmap_nil_inv in E.
  - eexists. split; [reflexivity|]. split; [|done].
    split; [discriminate|].
    intros H. assert (Hj : join ", " (map text (tasksRef s)) = EmptyString).
    { apply join_empty. destruct H as [-> | ->]; [by left | by right]. }
    rewrite E in Hj. discriminate Hj.
Qed.

(** X4.  [getTasks] at the end of a batch answers from the list as it
    was at the last render: the entries before it in the same batch,
    whatever they add or delete, do not change its answer. *)
Theorem getTasks_ignores_the_batch_before_it calls fc s :
  Forall hasArguments calls -> call_name fc = "getTasks" ->
  exists r,
    dispatch fc s = Some (s, r) /\
    last (sent (toolCalls (calls ++ [fc]) s).1) =
      Some {| resp_id := call_id fc; resp_name := call_name fc;
              resp_result := r |}.
Proof.
  intros Hall Hn.
  rewrite toolCalls_app,
    (toolCalls_returns generateId Date_now calls s Hall).
  assert (Hm : tasksRef (toolCalls calls s).1 = tasksRef s).
  { by rewrite (toolCalls_frame generateId Date_now calls s). }
  simpl. unfold App.dispatch. rewrite Hn. simpl. rewrite Hm.
  eexists. split; [reflexivity|]. rewrite last_snoc. simpl.
  by rewrite ?Hn.
Qed.

End Facts.

(** X2 on a batch whose second entry is an [addTask] without text. *)
Lemma batch_stops_at_entry_without_text_witness :
  toolCalls Sample.generateId Sample.Date_now
    ([Scenario.getTasksCall] ++
     Scenario.brokenCall :: [Scenario.clearCall]) Scenario.listed =
  ((toolCalls Sample.generateId Sample.Date_now [Scenario.getTasksCall] Scenario.listed).1, Threw).
Proof.
  apply (batch_stops_at_entry_without_text Sample.generateId Sample.Date_now
           [Scenario.getTasksCall] Scenario.brokenCall
           [Scenario.clearCall] Scenario.listed).
  - repeat constructor. intros E. discriminate E.
  - split; [reflexivity | by left].
Defined.

(** X3 on the sample list. *)
Lemma getTasks_reads_the_mirror_witness :
  exists r,
    dispatch Sample.generateId Sample.Date_now Scenario.getTasksCall Scenario.listed =
      Some (Scenario.listed, r) /\
    (r = "Your list is empty." <->
     tasksRef Scenario.listed = [] \/
     map text (tasksRef Scenario.listed) = [EmptyString]) /\
    (r <> "Your list is empty." ->
     r = ("Your list has: " ++
          join ", " (map text (tasksRef Scenario.listed)))%string).
Proof.
  exact (getTasks_reads_the_mirror Sample.generateId Sample.Date_now
           Scenario.getTasksCall Scenario.listed eq_refl).
Defined.

(** X4 on the sample list: after [clearAllTasks] in the same batch,
    [getTasks] still answers with the two tasks. *)
Lemma getTasks_ignores_the_batch_before_it_witness :
  exists r,
    dispatch Sample.generateId Sample.Date_now Scenario.getTasksCall Scenario.listed =
      Some (Scenario.listed, r) /\
    last (sent (toolCalls Sample.generateId Sample.Date_now
                  ([Scenario.clearCall] ++ [Scenario.getTasksCall])
                  Scenario.listed).1) =
      Some {| resp_id := call_id Scenario.getTasksCall;
              resp_name := call_name Scenario.getTasksCall;
              resp_result := r |}.
Proof.
  apply (getTasks_ignores_the_batch_before_it Sample.generateId Sample.Date_now
           [Scenario.clearCall] Scenario.getTasksCall Scenario.listed).
  - repeat constructor. intros E. discriminate E.
  - reflexivity.
Defined.

End ToolBatch.

(** ** Invariants of the task list *)

Module TaskShape.

Import JsString JsStringFacts JsNumberFacts App Shape Frame Scheduler.

Local Open Scope list_scope.

Section Facts.

Variable generateId : nat -> string.
Variable Date_now : nat -> N.
Variable decodeAudioData : string -> option N.

#[local] Abbreviation toolCalls := (toolCalls generateId Date_now).
#[local] Abbreviation dispatch := (dispatch generateId Date_now).
#[local] Abbreviation afterTools := (afterTools generateId Date_now).
#[local] Abbreviation onmessage :=
  (onmessage generateId Date_now decodeAudioData).
#[local] Abbreviation handleAudio := (handleAudio decodeAudioData).
#[local] Abbreviation step := (step generateId Date_now decodeAudioData).
#[local] Abbreviation run := (run generateId Date_now decodeAudioData).

(** What one tool call can do to the task list and to the count of
    identifiers drawn. *)
Lemma dispatch_tasks fc s s' r :
  dispatch fc s = Some (s', r) ->
  (tasks s' = tasks s /\ idCalls s' = idCalls s) \/
  (exists task,
     blank (text task) = false /\ id task = generateId (idCalls s) /\
     tasks s' = task :: tasks s /\ idCalls s' = S (idCalls s)) \/
  (exists i,
     tasks s' = filter (fun u => id u <> i) (tasks s) /\
     idCalls s' = idCalls s) \/
  (tasks s' = [] /\ idCalls s' = idCalls s).
Proof.
  unfold App.dispatch. intros H.
  destruct (String.eqb (call_name fc) "addTask").
  { destruct (call_text fc) as [t|]; [|discriminate H].
    injection H as <- _. unfold App.addTask. rewrite trim_falsy.
    destruct (blank t) eqn:Hb; [by left|].
    right; left. eexists. by repeat split. }
  destruct (String.eqb (call_name fc) "removeTask").
  { destruct (call_text fc) as [t|].
    - destruct (find (matchesText t) (tasksRef s)) as [u|];
        injection H as <- _; [|by left].
      right; right; left. by exists (id u).
    - destruct (tasksRef s); [|discriminate H].
      injection H as <- _. by left. }
  destruct (String.eqb (call_name fc) "getTasks").
  { injection H as <- _. by left. }
  destruct (String.eqb (call_name fc) "clearAllTasks");
    injection H as <- _; [by right; right; right | by left].
Qed.

Section Preserved.

(** A property of the task list and the identifier count that every
    tool call keeps. *)
Variable P : list Task -> nat -> Prop.

Hypothesis dispatch_keeps : forall fc s s' r,
  dispatch fc s = Some (s', r) ->
  P (tasks s) (idCalls s) -> P (tasks s') (idCalls s').

Lemma toolCalls_keeps calls : forall s,
  P (tasks s) (idCalls s) ->
  P (tasks (toolCalls calls s).1) (idCalls (toolCalls calls s).1).
Proof.
  induction calls as [|fc rest IH]; intros s Hs; simpl; [done|].
  destruct (dispatch fc s) as [[s1 r]|] eqn:E; simpl; [|done].
  apply IH. simpl. by eapply dispatch_keeps.
Qed.

Lemma handleAudio_tasks msg s :
  tasks (handleAudio msg s) = tasks s /\
  idCalls (handleAudio msg s) = idCalls s.
Proof. unfold App.handleAudio. fields. Qed.

Lemma connectVoice_tasks w s :
  tasks (connectVoice w s) = tasks s /\
  idCalls (connectVoice w s) = idCalls s.
Proof. unfold connectVoice, openSession, handleSetKey. fields. Qed.

Lemma onended_tasks h s :
  tasks (onended h s) = tasks s /\ idCalls (onended h s) = idCalls s.
Proof. unfold onended. fields. Qed.

Lemma step_keeps s ev :
  P (tasks s) (idCalls s) ->
  P (tasks (step s ev)) (idCalls (step s ev)).
Proof.
  intros Hs. destruct ev as [|dt|w| |msg| | |h]; simpl; try exact Hs.
  - unfold toggleVoice.
    destruct (isVoiceActive s || isVoiceConnecting s); [exact Hs|].
    by destruct (connectVoice_tasks w s) as [-> ->].
  - rewrite onmessage_unfold. unfold App.afterTools.
    set (s1 := if interrupted msg then interrupt (handleAudio msg s)
               else handleAudio msg s).
    assert (Hs1 : P (tasks s1) (idCalls s1)).
    { subst s1. destruct (handleAudio_tasks msg s) as [Ht Hc].
      destruct (interrupted msg); simpl; by rewrite Ht, Hc. }
    destruct (toolCall msg) as [calls|]; [by apply toolCalls_keeps | done].
  - by destruct (onended_tasks h s) as [-> ->].
Qed.

Lemma run_keeps evs : forall s,
  P (tasks s) (idCalls s) ->
  P (tasks (run s evs)) (idCalls (run s evs)).
Proof.
  induction evs as [|ev evs IH]; intros s Hs; [done|].
  rewrite run_cons. apply IH. by apply step_keeps.
Qed.

End Preserved.

Lemma filter_texts (i : string) (l : list Task) :
  textsNotBlank l -> textsNotBlank (filter (fun u => id u <> i) l).
Proof.
  unfold textsNotBlank. intros Hl.
  induction Hl as [|u l Hu _ IH]; [constructor|].
  destruct (decide (id u <> i)).
  - rewrite filter_cons_True by done. by constructor.
  - by rewrite filter_cons_False.
Qed.

(** X5.  No event puts a task with a blank text into the list: if every
    task has a text that is not blank, this is still so after any run of
    events; in particular in every state reached from the mounted
    component. *)
Theorem task_texts_are_never_blank s evs :
  textsNotBlank (tasks s) -> textsNotBlank (tasks (run s evs)).
Proof.
  apply (run_keeps (fun l _ => textsNotBlank l)).
  intros fc s0 s' r Hd Hs0.
  destruct (dispatch_tasks fc s0 s' r Hd)
    as [[-> _] | [(task & Hb & _ & -> & _) | [(i & -> & _) | [-> _]]]].
  - exact Hs0.
  - by constructor.
  - by apply filter_texts.
  - constructor.
Qed.



End Facts.

(** X5 on the sample list, when an [addTask] with a text of two spaces
    arrives. *)
Lemma task_texts_are_never_blank_witness :
  textsNotBlank
    (tasks (run Sample.generateId Sample.Date_now Sample.decodeAudioData Scenario.listed
              [SessionMessage Scenario.blankAdd])).
Proof.
  apply (task_texts_are_never_blank Sample.generateId Sample.Date_now Sample.decodeAudioData).
  by repeat constructor.
Defined.



End TaskShape.

(** ** The session and its sources over time *)

Module Session.

Import JsString App Shape Frame Scheduler.

Local Open Scope list_scope.

Section Facts.

Variable generateId : nat -> string.
Variable Date_now : nat -> N.
Variable decodeAudioData : string -> option N.

#[local] Abbreviation afterTools := (afterTools generateId Date_now).
#[local] Abbreviation onmessage :=
  (onmessage generateId Date_now decodeAudioData).
#[local] Abbreviation handleAudio := (handleAudio decodeAudioData).
#[local] Abbreviation step := (step generateId Date_now decodeAudioData).
#[local] Abbreviation run := (run generateId Date_now decodeAudioData).

Lemma handleAudio_decoded msg s data dur now :
  audioData msg = Some data -> truthy data = true ->
  decodeAudioData data = Some dur -> audioContextRef s = Some now ->
  handleAudio msg s = schedulePlayback now dur s.
Proof.
  intros Hd Ht Hdec Hc. unfold App.handleAudio. by rewrite Hd, Hc, Ht, Hdec.
Qed.

(** X7.  After an interruption the next fragment starts at the clock
    reading of its own arrival, however far the cursor had run ahead and
    however long the pause before it. *)
Theorem fragment_after_interruption_starts_at_clock
    s m1 dt m2 data dur now :
  interrupted m1 = true -> audioContextRef s = Some now ->
  audioData m2 = Some data -> truthy data = true ->
  decodeAudioData data = Some dur ->
  let s1 := step s (SessionMessage m1) in
  started (run s [SessionMessage m1; Tick dt; SessionMessage m2]) =
  started s1 ++
    [{| when := dt + now; duration := dur; calledAt := dt + now |}].
Proof.
  intros Hint Hc Hd Ht Hdec s1.
  assert (Hs1 : nextStartTimeRef s1 = 0%N /\ audioContextRef s1 = Some now).
  { subst s1. simpl. rewrite onmessage_unfold, Hint.
    pose proof (afterTools_frame generateId Date_now m1
                  (interrupt (handleAudio m1 s))) as Hf.
    rewrite Hf. simpl. split; [done|].
    by rewrite (handleAudio_context decodeAudioData). }
  destruct Hs1 as [Hcur Hctx].
  change (run s [SessionMessage m1; Tick dt; SessionMessage m2])
    with (step (step s1 (Tick dt)) (SessionMessage m2)).
  clearbody s1.
  set (s2 := step s1 (Tick dt)).
  assert (Hs2 : nextStartTimeRef s2 = 0%N /\
                audioContextRef s2 = Some (dt + now)%N /\
                started s2 = started s1).
  { subst s2. simpl. by rewrite Hctx, Hcur. }
  destruct Hs2 as (Hcur2 & Hctx2 & Hst2). clearbody s2.
  simpl. rewrite onmessage_unfold.
  rewrite (handleAudio_decoded m2 s2 data dur _ Hd Ht Hdec Hctx2).
  set (s3 := schedulePlayback (dt + now) dur s2).
  assert (Hs3 : started s3 = started s1 ++
            [{| when := dt + now; duration := dur;
                calledAt := dt + now |}]).
  { subst s3. simpl. by rewrite Hst2, Hcur2, N.max_0_l. }
  clearbody s3.
  pose proof (afterTools_frame generateId Date_now m2
                (if interrupted m2 then interrupt s3 else s3)) as Hf.
  rewrite Hf. simpl. by destruct (interrupted m2).
Qed.

Lemma onended_sources h s :
  audioSourcesRef (onended h s) = audioSourcesRef s ∖ {[h]}.
Proof. unfold onended. fields. Qed.

Lemma ended_sources l : forall s,
  audioSourcesRef (run s (SourceEnded <$> l)) =
  audioSourcesRef s ∖ list_to_set l.
Proof.
  induction l as [|h l IH]; intros s.
  - simpl. by rewrite difference_empty_L.
  - rewrite fmap_cons, run_cons, IH, list_to_set_cons.
    change (step s (SourceEnded h)) with (onended h s).
    rewrite onended_sources.
    apply set_eq. intros x.
    rewrite !elem_of_difference, elem_of_union, elem_of_singleton.
    tauto.
Qed.

(** X8.  Once the [onended] callback of every active source has run, in
    whatever order and whatever other handles end besides, no source is
    left in [audioSourcesRef] and the speaking indicator is off. *)
Theorem indicator_off_when_all_sources_ended s l :
  l <> [] -> audioSourcesRef s ⊆ list_to_set l ->
  audioSourcesRef (run s (SourceEnded <$> l)) = ∅ /\
  isBotSpeaking (run s (SourceEnded <$> l)) = false.
Proof.
  intros Hne Hsub.
  assert (Hempty : audioSourcesRef (run s (SourceEnded <$> l)) = ∅).
  { rewrite ended_sources. apply set_eq. intros x.
    rewrite elem_of_difference. split; [|by intros H%not_elem_of_empty].
    intros [Hx Hnx]. destruct Hnx. by apply Hsub. }
  split; [exact Hempty|].
  destruct (exists_last Hne) as (l' & h & ->).
  rewrite fmap_app in Hempty |- *. simpl in *.
  unfold App.run in Hempty |- *. rewrite foldl_app in Hempty |- *.
  simpl in *. unfold onended in Hempty |- *. simpl in *.
  case_bool_decide as Hsize; simpl in *; [done|].
  destruct Hsize. rewrite Hempty. apply size_empty.
Qed.

(** X9.  Pressing the voice button while the session is active tears the
    session down but keeps the output context, so a fragment that still
    arrives afterwards is scheduled and played: the indicator says
    speaking although the session is marked inactive. *)
Theorem late_fragment_plays_after_stop s w msg data dur now :
  isVoiceActive s = true -> audioContextRef s = Some now ->
  audioData msg = Some data -> truthy data = true ->
  decodeAudioData data = Some dur -> interrupted msg = false ->
  let s' := run s [VoiceButton w; SessionMessage msg] in
  isVoiceActive s' = false /\ liveSessionRef s' = false /\
  isBotSpeaking s' = true /\
  audioSourcesRef s' = {[ length (started s) ]} /\
  started s' =
    started s ++ [{| when := N.max (nextStartTimeRef s) now;
                     duration := dur; calledAt := now |}].
Proof.
  intros Hact Hc Hd Ht Hdec Hint s'. subst s'.
  change (run s [VoiceButton w; SessionMessage msg])
    with (step (step s (VoiceButton w)) (SessionMessage msg)).
  assert (Hs1 : step s (VoiceButton w) = disconnectVoice s).
  { simpl. unfold toggleVoice. by rewrite Hact. }
  rewrite Hs1. simpl. rewrite onmessage_unfold, Hint.
  rewrite (handleAudio_decoded msg (disconnectVoice s) data dur now
             Hd Ht Hdec Hc).
  pose proof (afterTools_frame generateId Date_now msg
                (schedulePlayback now dur (disconnectVoice s))) as Hf.
  rewrite Hf. simpl. repeat split. apply union_empty_r_L.
Qed.

(** X10.  Teardown is idempotent: a second [disconnectVoice], as when the
    close callback follows the button, changes nothing. *)
Theorem disconnectVoice_twice s :
  disconnectVoice (disconnectVoice s) = disconnectVoice s.
Proof.
  unfold disconnectVoice, stopAll. simpl.
  by rewrite union_empty_l_L.
Qed.

Lemma handleAudio_handles msg s :
  handlesStarted s -> handlesStarted (handleAudio msg s).
Proof.
  unfold handlesStarted, App.handleAudio. intros Hs.
  destruct (audioData msg) as [data|]; [|done].
  destruct (audioContextRef s) as [now|]; [|done].
  destruct (truthy data); [|done].
  destruct (decodeAudioData data) as [dur|]; simpl; [|done].
  intros h Hh. rewrite length_app. simpl.
  apply elem_of_union in Hh as [Hh | Hh].
  - apply elem_of_union in Hh as [Hh | Hh].
    + apply elem_of_singleton in Hh as ->. lia.
    + assert (h < length (started s))%nat
        by (apply Hs, elem_of_union; by left). lia.
  - assert (h < length (started s))%nat
      by (apply Hs, elem_of_union; by right). lia.
Qed.

Lemma flush_handles s s' :
  started s' = started s -> audioSourcesRef s' = ∅ ->
  stopped s' = audioSourcesRef s ∪ stopped s ->
  handlesStarted s -> handlesStarted s'.
Proof.
  unfold handlesStarted. intros Hst Hsrc Hstop Hs h Hh.
  rewrite Hst. apply Hs. rewrite Hsrc, Hstop in Hh.
  by rewrite union_empty_l_L in Hh.
Qed.

Lemma same_handles s s' :
  started s' = started s -> audioSourcesRef s' = audioSourcesRef s ->
  stopped s' = stopped s -> handlesStarted s -> handlesStarted s'.
Proof. unfold handlesStarted. by intros -> -> ->. Qed.

Lemma connectVoice_handles w s :
  started (connectVoice w s) = started s /\
  audioSourcesRef (connectVoice w s) = audioSourcesRef s /\
  stopped (connectVoice w s) = stopped s.
Proof. unfold connectVoice, openSession, handleSetKey. fields. Qed.

Lemma step_handles s ev :
  handlesStarted s -> handlesStarted (step s ev).
Proof.
  intros Hs. destruct ev as [|dt|w| |msg| | |h]; simpl; try exact Hs.
  - unfold toggleVoice. destruct (isVoiceActive s || isVoiceConnecting s).
    + by apply (flush_handles s).
    + destruct (connectVoice_handles w s) as (H1 & H2 & H3).
      by apply (same_handles s).
  - rewrite onmessage_unfold.
    set (s1 := if interrupted msg then interrupt (handleAudio msg s)
               else handleAudio msg s).
    assert (Hs1 : handlesStarted s1).
    { subst s1. pose proof (handleAudio_handles msg s Hs) as Ha.
      destruct (interrupted msg); [|exact Ha].
      by apply (flush_handles (handleAudio msg s)). }
    pose proof (afterTools_frame generateId Date_now msg s1) as Hf.
    apply (same_handles s1); [by rewrite Hf | by rewrite Hf | by rewrite Hf
                             | exact Hs1].
  - by apply (flush_handles s).
  - by apply (flush_handles s).
  - unfold handlesStarted, onended in *. intros h' Hh'.
    assert (Hin : h' ∈ audioSourcesRef s ∪ stopped s).
    { revert Hh'. fields; rewrite !elem_of_union, ?elem_of_difference; tauto. }
    specialize (Hs h' Hin). revert Hs. fields.
Qed.

Lemma handleAudio_past msg s :
  neverInPast s -> neverInPast (handleAudio msg s).
Proof.
  unfold neverInPast, App.handleAudio. intros Hs.
  destruct (audioData msg) as [data|]; [|done].
  destruct (audioContextRef s) as [now|]; [|done].
  destruct (truthy data); [|done].
  destruct (decodeAudioData data) as [dur|]; simpl; [|done].
  apply Forall_app. split; [exact Hs|].
  constructor; [simpl; lia | constructor].
Qed.

Lemma step_past s ev : neverInPast s -> neverInPast (step s ev).
Proof.
  unfold neverInPast. intros Hs.
  destruct ev as [|dt|w| |msg| | |h]; simpl; try exact Hs.
  - unfold toggleVoice. destruct (isVoiceActive s || isVoiceConnecting s);
      [exact Hs|].
    by destruct (connectVoice_handles w s) as [-> _].
  - rewrite onmessage_unfold.
    set (s1 := if interrupted msg then interrupt (handleAudio msg s)
               else handleAudio msg s).
    pose proof (afterTools_frame generateId Date_now msg s1) as Hf.
    rewrite Hf. simpl. subst s1.
    pose proof (handleAudio_past msg s Hs) as Ha.
    by destruct (interrupted msg).
  - revert Hs. unfold onended. fields.
Qed.

(** X11.  In every state reached from the mounted component, each handle
    that is active or was force-stopped names a source that was started,
    and no source was started at a time its clock had already passed. *)
Theorem sources_are_well_formed evs :
  handlesStarted (run initial evs) /\ neverInPast (run initial evs).
Proof.
  assert (H : forall s, handlesStarted s /\ neverInPast s ->
                handlesStarted (run s evs) /\ neverInPast (run s evs)).
  { induction evs as [|ev evs IH]; intros s Hs; [exact Hs|].
    rewrite run_cons. apply IH. destruct Hs as [Hh Hp].
    split; [by apply step_handles | by apply step_past]. }
  apply H. split.
  - intros h Hh. apply elem_of_union in Hh as [Hh | Hh];
      by apply not_elem_of_empty in Hh.
  - constructor.
Qed.

Lemma connectVoice_active w s :
  isVoiceActive (connectVoice w s) = isVoiceActive s.
Proof. unfold connectVoice, openSession, handleSetKey. fields. Qed.

Lemma handleAudio_flags msg s :
  isVoiceConnecting (handleAudio msg s) = isVoiceConnecting s /\
  isVoiceActive (handleAudio msg s) = isVoiceActive s.
Proof. unfold App.handleAudio. fields. Qed.

(** X12.  In every state reached from the mounted component the session
    is never marked connecting and active at once: the header shows the
    spinner or the open microphone, not a mix of the two. *)
Theorem session_flags_are_consistent evs :
  flagsConsistent (run initial evs).
Proof.
  assert (H : forall s, flagsConsistent s -> flagsConsistent (run s evs)).
  { induction evs as [|ev evs IH]; intros s Hs; [exact Hs|].
    rewrite run_cons. apply IH. unfold flagsConsistent in *.
    destruct ev as [|dt|w| |msg| | |h]; simpl; try exact Hs;
      try (intros H; discriminate H).
    - unfold toggleVoice.
      destruct (isVoiceActive s) eqn:Ha, (isVoiceConnecting s) eqn:Hc;
        simpl; try (intros H; discriminate H).
      intros _. by rewrite connectVoice_active.
    - rewrite onmessage_unfold.
      set (s1 := if interrupted msg then interrupt (handleAudio msg s)
                 else handleAudio msg s).
      pose proof (afterTools_frame generateId Date_now msg s1) as Hf.
      rewrite Hf. simpl. subst s1.
      destruct (handleAudio_flags msg s) as [H1 H2].
      destruct (interrupted msg); simpl; by rewrite H1, H2.
    - revert Hs. unfold onended. fields. }
  apply H. intros Hc. discriminate Hc.
Qed.

End Facts.

(** X7 with the cursor five ticks ahead: the interruption, seven ticks,
    then a fragment of three ticks. *)
Lemma fragment_after_interruption_starts_at_clock_witness :
  let s1 := step Sample.generateId Sample.Date_now Sample.decodeAudioData Scenario.ahead
              (SessionMessage Sample.interruption) in
  started (run Sample.generateId Sample.Date_now Sample.decodeAudioData Scenario.ahead
             [SessionMessage Sample.interruption; Tick 7;
              SessionMessage (Sample.audio "abc")]) =
  started s1 ++ [{| when := 7 + 0; duration := 3; calledAt := 7 + 0 |}].
Proof.
  exact (fragment_after_interruption_starts_at_clock Sample.generateId Sample.Date_now Sample.decodeAudioData
           Scenario.ahead Sample.interruption 7 (Sample.audio "abc")
           "abc" 3 0 eq_refl eq_refl eq_refl eq_refl eq_refl).
Defined.

(** X8 with two sources playing, the second ending first. *)
Lemma indicator_off_when_all_sources_ended_witness :
  audioSourcesRef (run Sample.generateId Sample.Date_now Sample.decodeAudioData Scenario.twoPlaying
                     (SourceEnded <$> [1; 0]%nat)) = ∅ /\
  isBotSpeaking (run Sample.generateId Sample.Date_now Sample.decodeAudioData Scenario.twoPlaying
                   (SourceEnded <$> [1; 0]%nat)) = false.
Proof.
  apply (indicator_off_when_all_sources_ended Sample.generateId Sample.Date_now Sample.decodeAudioData
           Scenario.twoPlaying [1; 0]%nat).
  - discriminate.
  - intros h Hh. simpl in Hh.
    apply elem_of_union in Hh as [Hh | Hh];
      apply elem_of_singleton in Hh as ->;
      rewrite !list_to_set_cons, !elem_of_union, !elem_of_singleton; tauto.
Defined.

(** X9 on an active session. *)
Lemma late_fragment_plays_after_stop_witness :
  let s' := run Sample.generateId Sample.Date_now Sample.decodeAudioData Scenario.active
              [VoiceButton Sample.browser;
               SessionMessage (Sample.audio "ab")] in
  isVoiceActive s' = false /\ liveSessionRef s' = false /\
  isBotSpeaking s' = true /\
  audioSourcesRef s' = {[ length (started Scenario.active) ]} /\
  started s' =
    started Scenario.active ++
      [{| when := N.max (nextStartTimeRef Scenario.active) 0;
          duration := 2; calledAt := 0 |}].
Proof.
  exact (late_fragment_plays_after_stop Sample.generateId Sample.Date_now Sample.decodeAudioData
           Scenario.active Sample.browser (Sample.audio "ab") "ab" 2 0
           eq_refl eq_refl eq_refl eq_refl eq_refl eq_refl).
Defined.

End Session.

(** ** Where the key comes from *)

Module KeyFacts.

Import JsString App Credential StoredKey Frame.

Local Open Scope list_scope.

(** X13.  With no key-selection capability and no key stored or in the
    environment, a key typed at the prompt is written to [localStorage],
    becomes [customApiKey] and is the key the client is created with;
    the user is prompted once. *)
Theorem typed_key_is_stored_and_used w s k :
  aistudio w = None -> isKeyMissing w s = true ->
  promptAnswer w = Some k -> truthy k = true ->
  storageAvailable w = true -> microphoneGranted w = true ->
  let s' := connectVoice w s in
  customApiKey s' = k /\ storedKey s' = Some k /\
  clients s' = clients s ++ [k] /\ prompts s' = S (prompts s) /\
  isVoiceConnecting s' = true /\ voiceError s' = None.
Proof.
  intros Hcap Hmiss Hp Hk Hst Hmic s'. subst s'.
  apply andb_true_iff in Hmiss as [Hc He].
  apply negb_true_iff in Hc, He.
  unfold connectVoice, handleSetKey, openSession.
  repeat progress (rewrite ?Hcap, ?Hc, ?He, ?Hp, ?Hk, ?Hst, ?Hmic; simpl).
  by repeat split.
Qed.

(** X14.  When [localStorage] is unavailable the key typed at the prompt
    still becomes [customApiKey], but this attempt fails with "No API Key
    set." and creates no client; the next attempt uses the typed key and
    does not prompt again. *)
Theorem typed_key_without_storage_needs_second_attempt w s k :
  aistudio w = None -> isKeyMissing w s = true ->
  promptAnswer w = Some k -> truthy k = true ->
  storageAvailable w = false -> microphoneGranted w = true ->
  let s1 := connectVoice w s in
  let s2 := connectVoice w s1 in
  (voiceError s1 = Some "No API Key set." /\ customApiKey s1 = k /\
   clients s1 = clients s /\ liveSessionRef s1 = liveSessionRef s /\
   prompts s1 = S (prompts s)) /\
  (clients s2 = clients s ++ [k] /\ prompts s2 = prompts s1 /\
   voiceError s2 = None /\ isVoiceConnecting s2 = true).
Proof.
  intros Hcap Hmiss Hp Hk Hst Hmic s1 s2.
  apply andb_true_iff in Hmiss as [Hc He].
  apply negb_true_iff in Hc, He.
  assert (Hs1 : s1 = set_voiceError (Some "No API Key set.")
                       (set_customApiKey k
                          (set_prompts (S (prompts s)) s))).
  { subst s1. unfold connectVoice, handleSetKey.
    by repeat progress (rewrite ?Hcap, ?Hc, ?He, ?Hp, ?Hk, ?Hst; simpl). }
  split; [by rewrite Hs1|].
  subst s2. rewrite Hs1. unfold connectVoice, openSession.
  repeat progress (rewrite ?Hcap, ?Hk, ?Hmic; simpl).
  by repeat split.
Qed.

(** X15.  [connectVoice] shows the prompt exactly when there is no
    key-selection capability and the render reports the key as missing
    ([isKeyMissing]); it never shows it more than once. *)
Theorem prompt_exactly_when_key_missing w s :
  prompts (connectVoice w s) =
  match aistudio w with
  | Some _ => prompts s
  | None => if isKeyMissing w s then S (prompts s) else prompts s
  end.
Proof.
  unfold isKeyMissing, connectVoice, handleSetKey, openSession.
  destruct (aistudio w) as [[[] []]|]; simpl;
    destruct (truthy (customApiKey s)) eqn:Hc; simpl; rewrite ?Hc; simpl;
    destruct (truthy (envApiKey w)) eqn:He; simpl; rewrite ?He, ?Hc; simpl;
    fields.
Qed.

(** X16.  Without the microphone [connectVoice] opens nothing, whichever
    way the key is resolved: no client is created, the three refs are
    left as they were, the attempt ends with a message in [voiceError],
    and the session is not left connecting. *)
Theorem no_microphone_no_session w s :
  microphoneGranted w = false -> isVoiceConnecting s = false ->
  let s' := connectVoice w s in
  clients s' = clients s /\ liveSessionRef s' = liveSessionRef s /\
  audioContextRef s' = audioContextRef s /\
  inputContextRef s' = inputContextRef s /\
  is_Some (voiceError s') /\ isVoiceConnecting s' = false.
Proof.
  intros Hmic Hconn s'. subst s'.
  unfold connectVoice, handleSetKey, openSession. rewrite Hmic.
  fields; repeat split; eauto.
Qed.

(** X17.  A key typed at the prompt survives a reload: any component
    that mounts on the same [localStorage] afterwards loads it into
    [customApiKey]. *)
Theorem typed_key_survives_reload w s k w' s' :
  aistudio w = None -> promptAnswer w = Some k -> truthy k = true ->
  storageAvailable w = true ->
  storageAvailable w' = true -> storedKey s' = storedKey (handleSetKey w s) ->
  customApiKey (loadStoredKey w' s') = k.
Proof.
  intros Hcap Hp Hk Hst Hst' Hsame.
  unfold handleSetKey in Hsame. rewrite Hcap, Hp, Hk, Hst in Hsame.
  simpl in Hsame. unfold loadStoredKey. by rewrite Hst', Hsame, Hk.
Qed.

(** X13 on a freshly mounted component. *)
Lemma typed_key_is_stored_and_used_witness :
  let s' := connectVoice Scenario.typing initial in
  customApiKey s' = "typed-key" /\ storedKey s' = Some "typed-key" /\
  clients s' = clients initial ++ ["typed-key"] /\
  prompts s' = S (prompts initial) /\
  isVoiceConnecting s' = true /\ voiceError s' = None.
Proof.
  exact (typed_key_is_stored_and_used Scenario.typing initial "typed-key"
           eq_refl eq_refl eq_refl eq_refl eq_refl eq_refl).
Defined.

(** X14 on a freshly mounted component. *)
Lemma typed_key_without_storage_needs_second_attempt_witness :
  let s1 := connectVoice Scenario.typingWithoutStorage initial in
  let s2 := connectVoice Scenario.typingWithoutStorage s1 in
  (voiceError s1 = Some "No API Key set." /\
   customApiKey s1 = "typed-key" /\
   clients s1 = clients initial /\
   liveSessionRef s1 = liveSessionRef initial /\
   prompts s1 = S (prompts initial)) /\
  (clients s2 = clients initial ++ ["typed-key"] /\
   prompts s2 = prompts s1 /\
   voiceError s2 = None /\ isVoiceConnecting s2 = true).
Proof.
  exact (typed_key_without_storage_needs_second_attempt
           Scenario.typingWithoutStorage initial "typed-key"
           eq_refl eq_refl eq_refl eq_refl eq_refl eq_refl).
Defined.

(** X16 on a freshly mounted component. *)
Lemma no_microphone_no_session_witness :
  let s' := connectVoice Scenario.noMicrophone initial in
  clients s' = clients initial /\
  liveSessionRef s' = liveSessionRef initial /\
  audioContextRef s' = audioContextRef initial /\
  inputContextRef s' = inputContextRef initial /\
  is_Some (voiceError s') /\ isVoiceConnecting s' = false.
Proof.
  exact (no_microphone_no_session Scenario.noMicrophone initial
           eq_refl eq_refl).
Defined.

(** X17: the key typed on a fresh component is loaded by the next one. *)
Lemma typed_key_survives_reload_witness :
  customApiKey
    (loadStoredKey Sample.browser
       (set_storedKey (Some "typed-key") initial)) = "typed-key".
Proof.
  exact (typed_key_survives_reload Scenario.typing initial "typed-key"
           Sample.browser (set_storedKey (Some "typed-key") initial)
           eq_refl eq_refl eq_refl eq_refl eq_refl eq_refl).
Defined.

End KeyFacts.

(** ** The page: tasks, sounds and the timer *)

Module PageFacts.

Import JsString JsStringFacts JsNumber JsNumberFacts App Page Shape.

Local Open Scope list_scope.

Lemma flipped_twice t : flipped (flipped t) = t.
Proof. destruct t as [i x c a]. unfold flipped. simpl. by rewrite negb_involutive. Qed.

(** X18.  Toggling the completion of the same identifier twice gives
    back the task list, and toggling never changes the identifiers, the
    texts or the order of the tasks. *)
Theorem toggling_twice_restores_the_list i (l : list Task) :
  toggleIn i (toggleIn i l) = l /\
  map id (toggleIn i l) = map id l /\
  map text (toggleIn i l) = map text l.
Proof.
  unfold toggleIn. repeat split.
  - rewrite map_map. induction l as [|t l IH]; simpl; [done|].
    rewrite IH. f_equal. destruct (String.eqb (id t) i) eqn:E; simpl.
    + by rewrite E, flipped_twice.
    + by rewrite E.
  - rewrite map_map. apply map_ext. intros t.
    by destruct (String.eqb (id t) i).
  - rewrite map_map. apply map_ext. intros t.
    by destruct (String.eqb (id t) i).
Qed.

Section Facts.

Variable generateId : nat -> string.
Variable Date_now : nat -> N.

#[local] Abbreviation addTask := (addTask generateId Date_now).
#[local] Abbreviation handleFormSubmit :=
  (handleFormSubmit generateId Date_now).
#[local] Abbreviation act := (act generateId Date_now).
#[local] Abbreviation perform := (perform generateId Date_now).

Lemma triggerSound_app type p : app (triggerSound type p) = app p.
Proof. unfold triggerSound. by destruct (soundEnabled (settings p)). Qed.

Lemma filter_toggleIn i j (l : list Task) :
  filter (fun u => id u <> i) (toggleIn j l) =
  toggleIn j (filter (fun u => id u <> i) l).
Proof.
  unfold toggleIn. induction l as [|t l IH]; simpl; [done|].
  assert (Hid : id (if String.eqb (id t) j then flipped t else t) = id t)
    by (by destruct (String.eqb (id t) j)).
  destruct (decide (id t <> i)) as [Hne | Heq].
  - rewrite !filter_cons_True by (by rewrite ?Hid). simpl. by rewrite IH.
  - rewrite !filter_cons_False by (by rewrite ?Hid). exact IH.
Qed.

(** X19.  Deleting by identifier leaves no task with that identifier and
    keeps every other task in its place; when no task has the identifier
    the list is unchanged; and deleting commutes with toggling the
    completion of any identifier. *)
Theorem deleting_removes_exactly_that_id i j p :
  let l := tasks (app p) in
  let l' := tasks (app (deleteTask i p)) in
  (i ∉ map id l') /\
  l' = filter (fun u => id u <> i) l /\
  ((i ∉ map id l) -> l' = l) /\
  tasks (app (deleteTask i (toggleComplete j p))) =
  tasks (app (toggleComplete j (deleteTask i p))).
Proof.
  intros l l'. subst l l'.
  unfold deleteTask, toggleComplete.
  repeat progress (rewrite ?triggerSound_app; simpl).
  split; [|split; [done|split]].
  - intros Hin. apply list_elem_of_fmap in Hin as (u & Hu & Hin).
    apply list_elem_of_filter in Hin as [Hne _]. by apply Hne.
  - intros Hn. induction (tasks (app p)) as [|u l IH]; [done|].
    simpl in Hn. apply not_elem_of_cons in Hn as [Hne Hn].
    rewrite filter_cons_True by (intros Heq; by apply Hne).
    f_equal. by apply IH.
  - apply filter_toggleIn.
Qed.

(** X20.  Submitting the form always empties the input field.  With a
    blank input nothing else changes and no sound is asked for; otherwise
    one task with the text of the input, not completed, is put at the
    head of the list. *)
Theorem submit_clears_input_and_adds_nonblank p :
  let p' := handleFormSubmit p in
  inputText p' = EmptyString /\
  (blank (inputText p) = true ->
   p' = set_inputText EmptyString p) /\
  (blank (inputText p) = false ->
   exists task,
     text task = inputText p /\ completed task = false /\
     tasks (app p') = task :: tasks (app p)).
Proof.
  intros p'. subst p'. unfold Page.handleFormSubmit, Page.addTask.
  rewrite trim_falsy. split; [done|]. split; intros Hb; rewrite Hb.
  - done.
  - simpl. rewrite triggerSound_app. simpl.
    unfold App.addTask. rewrite trim_falsy, Hb. simpl.
    eexists. by repeat split.
Qed.

Lemma act_sound_setting p a :
  a <> ToggleSound ->
  soundEnabled (settings (act p a)) = soundEnabled (settings p).
Proof.
  intros Ha. destruct a; simpl; try done;
    unfold Page.handleFormSubmit, Page.addTask, deleteTask, toggleComplete,
      toggleTimer, timerTick, timerEffect, triggerSound; simpl;
    repeat match goal with
           | |- context [if ?b then _ else _] => destruct b eqn:?; simpl
           end; congruence.
Qed.

Lemma act_silent p a :
  a <> ToggleSound -> soundEnabled (settings p) = false ->
  played (act p a) = played p.
Proof.
  intros Ha Hoff. destruct a; simpl; try done;
    unfold Page.handleFormSubmit, Page.addTask, deleteTask, toggleComplete,
      toggleTimer, timerTick, timerEffect, triggerSound; simpl;
    rewrite ?Hoff; simpl;
    repeat match goal with
           | |- context [if ?b then _ else _] => destruct b eqn:?; simpl
           end; congruence.
Qed.

(** X21.  With the sound switched off, no sequence of actions that does
    not switch it on again asks [playSound] for anything: tasks added,
    deleted or completed, the timer switched and the alarm reached all
    stay silent. *)
Theorem nothing_is_played_while_sound_is_off acts : forall p,
  soundEnabled (settings p) = false ->
  Forall (fun a => a <> ToggleSound) acts ->
  played (perform p acts) = played p.
Proof.
  induction acts as [|a acts IH]; intros p Hoff Hall; [done|].
  apply Forall_cons in Hall as [Ha Hall].
  change (perform p (a :: acts)) with (perform (act p a) acts).
  rewrite IH; [by apply act_silent | | exact Hall].
  by rewrite act_sound_setting.
Qed.

Lemma act_timer p a : timerInRange p -> timerInRange (act p a).
Proof.
  unfold timerInRange, TIMER_INTERVAL_MS. intros [[Hlo Hhi] Hmod].
  assert (Hfull : (1000 <= 30 * 60 * 1000 <= 30 * 60 * 1000)%N /\
                  ((30 * 60 * 1000) mod 1000 = 0)%N) by (split; [lia | done]).
  destruct a; simpl; try done;
    unfold Page.handleFormSubmit, Page.addTask, deleteTask, toggleComplete,
      toggleSound, toggleTimer, timerTick, timerEffect, triggerSound,
      TIMER_INTERVAL_MS; simpl;
    repeat match goal with
           | |- context [if ?b then _ else _] => destruct b eqn:?; simpl
           end; try done; try exact Hfull.
  all: match goal with
       | H : (_ <=? _)%N = false |- _ => apply N.leb_gt in H
       end.
  all: destruct (proj1 (N.Div0.mod_divides _ _) Hmod) as [c Hc].
  all: split; [lia|].
  all: replace (timeLeft p - 1000)%N with ((c - 1) * 1000)%N by lia.
  all: apply N.Div0.mod_mul.
Qed.

(** X22.  In every state of the page reached from the first render, the
    time left on the timer is a whole number of seconds, at least one
    second and at most thirty minutes, whatever [timerIntervalMinutes]
    says. *)
Theorem timer_stays_in_range acts :
  timerInRange (perform mounted acts).
Proof.
  assert (H : forall p, timerInRange p -> timerInRange (perform p acts)).
  { induction acts as [|a acts IH]; intros p Hp; [exact Hp|].
    change (perform p (a :: acts)) with (perform (act p a) acts).
    by apply IH, act_timer. }
  apply H. unfold timerInRange. simpl. unfold TIMER_INTERVAL_MS.
  split; [lia | done].
Qed.

Lemma perform_snoc p acts a :
  perform p (acts ++ [a]) = act (perform p acts) a.
Proof. unfold Page.perform. by rewrite foldl_app. Qed.

Lemma seconds_pass k : forall p,
  timerEnabled (settings p) = true ->
  (1000 * N.of_nat k < timeLeft p)%N ->
  perform p (replicate k Second) =
  set_timeLeft (timeLeft p - 1000 * N.of_nat k) p.
Proof.
  induction k as [|k IH]; intros p Hon Hk.
  - simpl. rewrite N.sub_0_r. by destruct p.
  - change (perform p (replicate (S k) Second))
      with (perform (timerTick p) (replicate k Second)).
    assert (Htick : timerTick p = set_timeLeft (timeLeft p - 1000) p).
    { unfold timerTick. rewrite Hon.
      destruct (timeLeft p <=? 1000)%N eqn:E; [|done].
      apply N.leb_le in E. lia. }
    rewrite Htick, IH; simpl; [|exact Hon|lia].
    unfold set_timeLeft. simpl. f_equal. lia.
Qed.

(** X23.  With the timer enabled and the full interval on the clock, the
    alarm is reached at the 1800th tick and not before: after [k] ticks,
    [k] below 1800, the time left is thirty minutes less [k] seconds and
    nothing was played; the 1800th tick puts the full interval back and
    asks for the alarm, once, when the sound is enabled. *)
Theorem alarm_every_thirty_minutes p k :
  timerEnabled (settings p) = true -> timeLeft p = TIMER_INTERVAL_MS ->
  (k < 1800)%nat ->
  perform p (replicate k Second) =
    set_timeLeft (TIMER_INTERVAL_MS - 1000 * N.of_nat k) p /\
  perform p (replicate 1800 Second) =
    set_timeLeft TIMER_INTERVAL_MS (triggerSound ALARM p).
Proof.
  intros Hon Hfull Hk.
  assert (Hbefore : forall j, (j < 1800)%nat ->
            perform p (replicate j Second) =
            set_timeLeft (TIMER_INTERVAL_MS - 1000 * N.of_nat j) p).
  { intros j Hj. rewrite <- Hfull. apply seconds_pass; [exact Hon|].
    rewrite Hfull. unfold TIMER_INTERVAL_MS. lia. }
  split; [by apply Hbefore|].
  rewrite replicate_S_end, perform_snoc, Hbefore by lia.
  replace (TIMER_INTERVAL_MS - 1000 * N.of_nat 1799)%N with 1000%N
    by (by vm_compute).
  unfold Page.act, timerTick, triggerSound. simpl. rewrite Hon. simpl.
  by destruct (soundEnabled (settings p)).
Qed.

(** X24.  Switching the timer off and on again, or on and off, leaves
    the full interval on the clock and the settings as they were. *)
Theorem toggling_timer_twice_resets_the_clock p :
  timeLeft (toggleTimer (toggleTimer p)) = TIMER_INTERVAL_MS /\
  settings (toggleTimer (toggleTimer p)) = settings p /\
  app (toggleTimer (toggleTimer p)) = app p.
Proof.
  destruct p as [a x [snd tmr mins] left sounds].
  unfold toggleTimer, timerEffect, triggerSound. simpl.
  destruct tmr, snd; done.
Qed.

End Facts.

(** X25.  For a whole number of milliseconds up to
    [Number.MAX_SAFE_INTEGER], [formatTime] shows the whole seconds as
    minutes, a colon and a seconds field of exactly two digits: reading
    the two numbers back gives the minutes and the seconds below sixty
    that make up the count. *)
Theorem formatTime_reads_back ms :
  (ms <= MAX_SAFE_INTEGER)%N ->
  exists mm ss,
    formatTime ms = Some (mm ++ ":" ++ ss)%string /\
    String.length ss = 2%nat /\
    readDecimal mm = Some (ms / 1000 / 60)%N /\
    readDecimal ss = Some ((ms / 1000) mod 60)%N /\
    (60 * (ms / 1000 / 60) + (ms / 1000) mod 60 = ms / 1000)%N.
Proof.
  intros Hms.
  exists (digits (ms / 1000 / 60)),
         (padStart 2 "0" (digits ((ms / 1000) mod 60))).
  assert (Hlt : ((ms / 1000) mod 60 < 60)%N) by (apply N.mod_lt; lia).
  assert (Hdiv : forall a b : N, (0 < b -> a / b <= a)%N).
  { intros a b Hb. apply N.Div0.div_le_upper_bound.
    replace a with (1 * a)%N at 1 by lia.
    apply N.mul_le_mono_r. lia. }
  assert (Hsec : (ms / 1000 <= ms)%N) by (apply Hdiv; lia).
  assert (Hmin : (ms / 1000 / 60 <= ms / 1000)%N) by (apply Hdiv; lia).
  destruct (seconds_field _ Hlt) as [Hlen Hread].
  split.
  { unfold formatTime. apply N.leb_le in Hms as Hleb. rewrite Hleb.
    assert (Hsixty : (60 <= MAX_SAFE_INTEGER)%N) by (by vm_compute).
    rewrite (toString_safe (ms / 1000 / 60)), (toString_safe (_ mod 60));
      [done | |].
    - apply N.lt_le_incl. eapply N.lt_le_trans; [exact Hlt | exact Hsixty].
    - etrans; [|exact Hms]. by etrans. }
  split; [exact Hlen|].
  split; [apply readDecimal_digits|]. split; [exact Hread|].
  symmetry. apply N.div_mod. lia.
Qed.

(** X19 on the sample page: deleting an identifier no task has. *)
Lemma deleting_removes_exactly_that_id_witness :
  tasks (app (deleteTask "task-9" Scenario.page)) =
  tasks (app Scenario.page).
Proof.
  apply (proj1 (proj2 (proj2 (deleting_removes_exactly_that_id
                                "task-9" "task-0" Scenario.page)))).
  simpl. intros H.
  repeat (apply elem_of_cons in H as [H | H]; [discriminate H|]).
  by apply elem_of_nil in H.
Defined.

(** X20 on the sample page, with ["Call mum"] in the input field. *)
Lemma submit_clears_input_and_adds_nonblank_witness :
  exists task,
    text task = inputText Scenario.page /\ completed task = false /\
    tasks (app (handleFormSubmit Sample.generateId Sample.Date_now Scenario.page)) =
      task :: tasks (app Scenario.page).
Proof.
  exact (proj2 (proj2 (submit_clears_input_and_adds_nonblank Sample.generateId Sample.Date_now
                         Scenario.page)) eq_refl).
Defined.

(** X21 on the sample page with the sound off. *)
Lemma nothing_is_played_while_sound_is_off_witness :
  played (perform Sample.generateId Sample.Date_now Scenario.quiet Scenario.clicks) =
  played Scenario.quiet.
Proof.
  apply (nothing_is_played_while_sound_is_off Sample.generateId Sample.Date_now
           Scenario.clicks Scenario.quiet).
  - reflexivity.
  - repeat constructor; intros E; discriminate E.
Defined.

(** X23 from the first render, one minute in. *)
Lemma alarm_every_thirty_minutes_witness :
  perform Sample.generateId Sample.Date_now mounted (replicate 60 Second) =
    set_timeLeft (TIMER_INTERVAL_MS - 1000 * N.of_nat 60) mounted /\
  perform Sample.generateId Sample.Date_now mounted (replicate 1800 Second) =
    set_timeLeft TIMER_INTERVAL_MS (triggerSound ALARM mounted).
Proof.
  apply (alarm_every_thirty_minutes Sample.generateId Sample.Date_now mounted 60 eq_refl eq_refl).
  lia.
Defined.

(** X25 at sixty-one seconds. *)
Lemma formatTime_reads_back_witness :
  exists mm ss,
    formatTime 61000 = Some (mm ++ ":" ++ ss)%string /\
    String.length ss = 2%nat /\
    readDecimal mm = Some (61000 / 1000 / 60)%N /\
    readDecimal ss = Some ((61000 / 1000) mod 60)%N /\
    (60 * (61000 / 1000 / 60) + (61000 / 1000) mod 60 = 61000 / 1000)%N.
Proof.
  apply (formatTime_reads_back 61000). unfold MAX_SAFE_INTEGER. lia.
Defined.

End PageFacts.
